(** * Bright Data SERP client: cache, payload extraction, ranking

    A shallow embedding of [agents/utils/bright_data.py]:
    the module-level cache ([_cache_get], [_cache_set]), the search entry
    point [search_google_serp] with its three extraction strategies, and
    [format_serp_results].

    Modelling conventions.
    - A Python [str] is a [string] whose characters are the code points
      below 256, one [ascii] value each.  On such strings [str.lower] works
      character by character and changes A-Z and the capitals U+00C0-U+00D6
      and U+00D8-U+00DE, and [re.IGNORECASE] pairs a letter of the pattern
      used here with its two ASCII cases only; the model follows both.
      String literals in this file are ASCII; another character is written
      by its code point.
    - A Python [int] is a [Z]; list and string slices [x[:n]] follow the
      interpreter for negative [n] as well.
    - A decoded JSON payload is a [json] value; a [dict] is a [gmap] from
      [string] keys.
    - Exceptions are values of [exn]; a computation that may raise returns
      an [outcome].
    - The process-wide [_CACHE], together with a counter of the HTTP
      requests issued, is threaded explicitly as a [state].  What one call
      reads from outside (environment variables, the clock, the provider's
      answer) is gathered in a [call_env].  Clock readings are integers,
      in seconds; the [print] calls are left out. *)

From Stdlib Require Import ZArith QArith Ascii String List Permutation Sorted Lia.
From stdpp Require Import base option strings list gmap pretty.

#[local] Set Warnings "-register-all".
#[local] Open Scope string_scope.

(** ** Python strings *)

Module PyStr.

Definition in_range (lo hi c : ascii) : bool :=
  ((N_of_ascii lo <=? N_of_ascii c) && (N_of_ascii c <=? N_of_ascii hi))%N.

(** The characters [str.lower] changes: A-Z, U+00C0-U+00D6, U+00D8-U+00DE. *)
Definition is_upper (c : ascii) : bool :=
  in_range "A" "Z" c
  || in_range (ascii_of_nat 192) (ascii_of_nat 214) c
  || in_range (ascii_of_nat 216) (ascii_of_nat 222) c.

(** Their lower-case forms, 32 code points above. *)
Definition is_lower (c : ascii) : bool :=
  in_range "a" "z" c
  || in_range (ascii_of_nat 224) (ascii_of_nat 246) c
  || in_range (ascii_of_nat 248) (ascii_of_nat 254) c.

Definition lower_char (c : ascii) : ascii :=
  if is_upper c then ascii_of_N (N_of_ascii c + 32) else c.

Definition upper_char (c : ascii) : ascii :=
  if is_lower c then ascii_of_N (N_of_ascii c - 32) else c.

(** [s.lower()] *)
Fixpoint lower (s : string) : string :=
  match s with
  | EmptyString => EmptyString
  | String c s' => String (lower_char c) (lower s')
  end.

(** [s[:k]] for a natural [k] *)
Fixpoint take (k : nat) (s : string) : string :=
  match k, s with
  | S k', String c s' => String c (take k' s')
  | _, _ => EmptyString
  end.

(** [s[:n]] for any integer [n]: a negative bound counts from the end. *)
Definition slice_upto (n : Z) (s : string) : string :=
  if (0 <=? n)%Z then take (Z.to_nat n) s
  else take (String.length s - Z.to_nat (- n)) s.

(** [needle in hay] *)
Fixpoint contains (needle hay : string) : bool :=
  String.prefix needle hay ||
  match hay with
  | EmptyString => false
  | String _ hay' => contains needle hay'
  end.

End PyStr.

(** ** Python list slices *)

(** [l[:n]] for any integer [n]. *)
Definition slice_upto {A : Type} (n : Z) (l : list A) : list A :=
  if (0 <=? n)%Z then take (Z.to_nat n) l
  else take (length l - Z.to_nat (- n)) l.

(** ** Query normalizer *)

(** [f"serp::{query.lower()}::{num_results}"] *)
Definition cache_key (query : string) (num_results : Z) : string :=
  "serp::" +:+ PyStr.lower query +:+ "::" +:+ pretty num_results.

(** ** JSON values, exceptions, fallible computations *)

(** What [json.loads] and [response.json()] produce. *)
Inductive json : Type :=
| JNull
| JBool (b : bool)
| JInt (z : Z)
| JFloat (x : Q)
| JStr (s : string)
| JArr (l : list json)
| JObj (m : gmap string json).

(** The exceptions the client can meet, one constructor per failing
    operation, each with the offending value. *)
Inductive exn : Type :=
| JSONDecodeError                  (* [response.json()] on an undecodable body *)
| NotAContainer (v : json)         (* [k in v], [v] neither dict, list nor str *)
| NotIndexable (v : json)          (* [v[k]] with a str key, [v] not a dict *)
| KeyError (k : string)            (* [d[k]], [k] not a key of [d] *)
| NotSliceable (v : json)          (* [v[:n]], [v] neither list nor str *)
| NoGetMethod (v : json)           (* [v.get(...)], [v] not a dict *)
| NotText (v : json)               (* [re.findall(p, v)], [v] not a str *)
| NotConcatenable (v : json).      (* [v + " "], [v] not a str *)

Inductive outcome (A : Type) : Type :=
| Ok (a : A)
| Raise (e : exn).
Arguments Ok {A} a.
Arguments Raise {A} e.

Definition obind {A B : Type} (x : outcome A) (k : A -> outcome B) : outcome B :=
  match x with
  | Ok a => k a
  | Raise e => Raise e
  end.

Notation "'do' x <- e ; k" := (obind e (fun x => k))
  (at level 10, x name, e at level 100, k at level 200).

(** A [for] loop that appends one computed element per item and stops at
    the first exception. *)
Fixpoint for_each {A B : Type} (f : A -> outcome B) (l : list A) : outcome (list B) :=
  match l with
  | [] => Ok []
  | a :: l' => do b <- f a; do bs <- for_each f l'; Ok (b :: bs)
  end.

Definition is_str (k : string) (v : json) : bool :=
  match v with
  | JStr s => String.eqb k s
  | _ => false
  end.

(** [k in data] for a string [k] *)
Definition contains_key (k : string) (data : json) : outcome bool :=
  match data with
  | JObj m => Ok (bool_decide (is_Some (m !! k)))
  | JArr l => Ok (existsb (is_str k) l)
  | JStr s => Ok (PyStr.contains k s)
  | _ => Raise (NotAContainer data)
  end.

(** [data[k]] for a string [k] *)
Definition subscript (k : string) (data : json) : outcome json :=
  match data with
  | JObj m => match m !! k with
              | Some v => Ok v
              | None => Raise (KeyError k)
              end
  | _ => Raise (NotIndexable data)
  end.

(** [v[:n]] *)
Definition slice (n : Z) (v : json) : outcome json :=
  match v with
  | JArr l => Ok (JArr (slice_upto n l))
  | JStr s => Ok (JStr (PyStr.slice_upto n s))
  | _ => Raise (NotSliceable v)
  end.

Fixpoint chars (s : string) : list json :=
  match s with
  | EmptyString => []
  | String c s' => JStr (String c EmptyString) :: chars s'
  end.

(** The items a [for] loop sees when it iterates over a sliced value. *)
Definition items (v : json) : list json :=
  match v with
  | JArr l => l
  | JStr s => chars s
  | _ => []
  end.

(** [item.get(k, dflt)] *)
Definition dict_get (k : string) (dflt : json) (item : json) : outcome json :=
  match item with
  | JObj m => Ok (default dflt (m !! k))
  | _ => Raise (NoGetMethod item)
  end.

(** [len(v)], where it is defined *)
Definition py_len (v : json) : option nat :=
  match v with
  | JStr s => Some (String.length s)
  | JArr l => Some (length l)
  | JObj m => Some (size m)
  | _ => None
  end.

(** Truth value of [v] in a condition *)
Definition truthy (v : json) : bool :=
  match v with
  | JNull => false
  | JBool b => b
  | JInt z => negb (z =? 0)%Z
  | JFloat x => negb (Qeq_bool x 0)
  | JStr s => negb (String.eqb s "")
  | JArr l => match l with [] => false | _ => true end
  | JObj m => negb (bool_decide (m = ∅))
  end.

(** ** Regular expressions, as far as the client uses them *)

Module Regex.

(** A character set [[...]] or [[^...]]: negation flag and ranges. *)
Record charset := { negated : bool; ranges : list (ascii * ascii) }.

Inductive atom : Type :=
| One (cs : charset)             (* [[...]] *)
| Star (cs : charset)            (* [[...]*], greedy *)
| Alt (words : list string).     (* [(?:w1|w2|...)] *)

Definition in_ranges (rs : list (ascii * ascii)) (c : ascii) : bool :=
  existsb (fun r => PyStr.in_range (fst r) (snd r) c) rs.

(** With [ignorecase] a character belongs to a set when one of its case
    variants does.  For the sets of the pattern used here, [[A-Z]] and
    [[.!?]], this is what [re.IGNORECASE] does on code points below 256. *)
Definition cs_match (ignorecase : bool) (cs : charset) (c : ascii) : bool :=
  xorb (negated cs)
    (in_ranges (ranges cs) c ||
     (ignorecase && (in_ranges (ranges cs) (PyStr.lower_char c) ||
                     in_ranges (ranges cs) (PyStr.upper_char c)))).

(** A character of a literal against a character of the text.  For the
    letters of the keywords, [re.IGNORECASE] accepts below code point 256
    the two ASCII cases of the letter and nothing else. *)
Definition char_eq (ignorecase : bool) (a b : ascii) : bool :=
  if ignorecase then Ascii.eqb (PyStr.lower_char a) (PyStr.lower_char b)
  else Ascii.eqb a b.

(** Match the literal [w] at the head of [s]; the rest of [s] on success. *)
Fixpoint eat (ignorecase : bool) (w s : string) : option string :=
  match w with
  | EmptyString => Some s
  | String a w' =>
      match s with
      | String b s' => if char_eq ignorecase a b then eat ignorecase w' s' else None
      | EmptyString => None
      end
  end.

(** Backtracking match of the sequence [p] at the head of [s]: the number
    of characters of the first match found, trying for a starred set the
    longest run first and for an alternation the words left to right. *)
Fixpoint match_here (ignorecase : bool) (p : list atom) (s : string)
  {struct p} : option nat :=
  match p with
  | [] => Some 0
  | One cs :: p' =>
      match s with
      | String c s' =>
          if cs_match ignorecase cs c
          then S <$> match_here ignorecase p' s'
          else None
      | EmptyString => None
      end
  | Star cs :: p' =>
      (fix star (s : string) : option nat :=
         match s with
         | String c s' =>
             if cs_match ignorecase cs c
             then match star s' with
                  | Some k => Some (S k)
                  | None => match_here ignorecase p' s
                  end
             else match_here ignorecase p' s
         | EmptyString => match_here ignorecase p' s
         end) s
  | Alt ws :: p' =>
      (fix alt (ws : list string) : option nat :=
         match ws with
         | [] => None
         | w :: ws' =>
             match eat ignorecase w s with
             | Some rest =>
                 match match_here ignorecase p' rest with
                 | Some k => Some (String.length w + k)
                 | None => alt ws'
                 end
             | None => alt ws'
             end
         end) ws
  end.

(** [re.findall] for a pattern without groups: the non-overlapping
    matches, scanning left to right.  [skip] counts the characters of the
    current match still to step over. *)
Fixpoint scan (ignorecase : bool) (p : list atom) (skip : nat) (s : string)
  : list string :=
  match s with
  | EmptyString =>
      match skip, match_here ignorecase p s with
      | 0, Some _ => [EmptyString]
      | _, _ => []
      end
  | String _ s' =>
      match skip with
      | S k => scan ignorecase p k s'
      | 0 =>
          match match_here ignorecase p s with
          | Some (S k) => PyStr.take (S k) s :: scan ignorecase p k s'
          | Some 0 => EmptyString :: scan ignorecase p 0 s'
          | None => scan ignorecase p 0 s'
          end
      end
  end.

Definition findall (ignorecase : bool) (p : list atom) (s : string) : list string :=
  scan ignorecase p 0 s.

End Regex.

(** ** Result extractor *)

Definition keywords : list string :=
  ["review"; "hotel"; "wifi"; "guest"; "stay"; "room"; "service"; "clean"].

Definition sentence_end : list (ascii * ascii) :=
  [("."%char, "."%char); ("!"%char, "!"%char); ("?"%char, "?"%char)].

(** [[A-Z][^.!?]*(?:review|hotel|wifi|guest|stay|room|service|clean)[^.!?]*[.!?]] *)
Definition snippet_pattern : list Regex.atom :=
  [ Regex.One {| Regex.negated := false; Regex.ranges := [("A"%char, "Z"%char)] |};
    Regex.Star {| Regex.negated := true; Regex.ranges := sentence_end |};
    Regex.Alt keywords;
    Regex.Star {| Regex.negated := true; Regex.ranges := sentence_end |};
    Regex.One {| Regex.negated := false; Regex.ranges := sentence_end |} ].

(** [re.findall(..., raw, re.IGNORECASE)] *)
Definition find_snippets (raw : string) : list string :=
  Regex.findall true snippet_pattern raw.

(** The dict [{"title": t, "snippet": s, "link": l}] *)
Definition mk_result (t s l : json) : gmap string json :=
  <["title" := t]> (<["snippet" := s]> (<["link" := l]> ∅)).

(** Body of the loop over [data["organic"][:num_results]] *)
Definition organic_item (item : json) : outcome (gmap string json) :=
  do t <- dict_get "title" (JStr "") item;
  do s0 <- dict_get "snippet" (JStr "") item;
  do s1 <- dict_get "description" s0 item;
  do s <- slice 300 s1;
  do l0 <- dict_get "url" (JStr "") item;
  do l <- dict_get "link" l0 item;
  Ok (mk_result t s l).

(** Body of the loop over [data["results"][:num_results]] *)
Definition generic_item (item : json) : outcome (gmap string json) :=
  do t <- dict_get "title" (JStr "") item;
  do s0 <- dict_get "description" (JStr "") item;
  do s1 <- dict_get "snippet" s0 item;
  do s <- slice 300 s1;
  do l0 <- dict_get "url" (JStr "") item;
  do l <- dict_get "link" l0 item;
  Ok (mk_result t s l).

(** The loop over [enumerate(snippets[:num_results])], [i] being the index
    of the head of [l]. *)
Fixpoint raw_items (i : nat) (l : list string) : list (gmap string json) :=
  match l with
  | [] => []
  | snippet :: l' =>
      if Nat.ltb 30 (String.length snippet)
      then mk_result (JStr ("Result " +:+ pretty (i + 1)))
                     (JStr (PyStr.slice_upto 300 snippet))
                     (JStr "")
           :: raw_items (S i) l'
      else raw_items (S i) l'
  end.

Definition organic_strategy (data : json) (num_results : Z) : outcome (list (gmap string json)) :=
  do v <- subscript "organic" data;
  do sl <- slice num_results v;
  for_each organic_item (items sl).

Definition generic_strategy (data : json) (num_results : Z) : outcome (list (gmap string json)) :=
  do v <- subscript "results" data;
  do sl <- slice num_results v;
  for_each generic_item (items sl).

Definition raw_strategy (data : json) (num_results : Z) : outcome (list (gmap string json)) :=
  do raw <- subscript "raw" data;
  match raw with
  | JStr text => Ok (raw_items 0 (slice_upto num_results (find_snippets text)))
  | _ => Raise (NotText raw)
  end.

(** The [if "organic" in data: ... elif "results" in data: ... elif "raw" in
    data: ...] cascade; [results] stays empty when no test succeeds. *)
Definition extract_results (data : json) (num_results : Z) : outcome (list (gmap string json)) :=
  do has_organic <- contains_key "organic" data;
  if has_organic : bool then organic_strategy data num_results
  else
    do has_results <- contains_key "results" data;
    if has_results : bool then generic_strategy data num_results
    else
      do has_raw <- contains_key "raw" data;
      if has_raw : bool then raw_strategy data num_results
      else Ok [].

(** ** Cache store *)

(** [{"success": ..., "results": ..., "error": ...}] *)
Record response : Type := {
  success : bool;
  results : list (gmap string json);
  error : option string
}.

(** [_CACHE_TTL_SEC = 60 * 30] *)
Definition _CACHE_TTL_SEC : Z := 60 * 30.

(** [_cache_get(key)] at clock reading [now]: the value found and the cache
    left behind (an expired entry is popped). *)
Definition _cache_get (key : string) (now : Z) (c : gmap string (response * Z))
  : option response * gmap string (response * Z) :=
  match c !! key with
  | None => (None, c)
  | Some (value, ts) =>
      if (_CACHE_TTL_SEC <? now - ts)%Z then (None, delete key c)
      else (Some value, c)
  end.

(** [_cache_set(key, value)] at clock reading [now] *)
Definition _cache_set (key : string) (value : response) (now : Z)
  (c : gmap string (response * Z)) : gmap string (response * Z) :=
  <[key := (value, now)]> c.

(** ** Provider client *)

(** The [requests.Response] fields the client reads; [json_body] is what
    [response.json()] returns, [None] when it raises. *)
Record http_response : Type := {
  status_code : Z;
  text : string;
  json_body : option json
}.

(** How [requests.post] ends: [requests.Timeout], another exception (with
    its [str(e)]), or a response. *)
Inductive http_outcome : Type :=
| HTimeout
| HFault (msg : string)
| HResponse (r : http_response).

(** What one call of [search_google_serp] reads from outside. *)
Record call_env : Type := {
  api_token : option string;       (* [os.getenv("BRIGHTDATA_API_TOKEN")] *)
  serp_format : option string;     (* [os.getenv("BRIGHTDATA_SERP_FORMAT")] *)
  clock_get : Z;                   (* [time.time()] inside [_cache_get] *)
  clock_set : Z;                   (* [time.time()] inside [_cache_set] *)
  provider : http_outcome          (* outcome of [requests.post] *)
}.

(** The module state: [_CACHE] and the number of HTTP requests issued. *)
Record state : Type := {
  cache : gmap string (response * Z);
  net_calls : nat
}.

Definition initial_state : state := {| cache := ∅; net_calls := 0 |}.

(** [not api_token] *)
Definition token_missing (env : call_env) : bool :=
  match api_token env with
  | None => true
  | Some t => String.eqb t ""
  end.

Definition failure (msg : string) : response :=
  {| success := false; results := []; error := Some msg |}.

Definition missing_credential : response :=
  failure "BRIGHTDATA_API_TOKEN not found in environment".

Definition format_type (env : call_env) : string :=
  default "json" (serp_format env).

(** Line feed *)
Definition nl : string := String (ascii_of_nat 10) EmptyString.

Section Client.

(** [json.loads] on a string; [None] when it raises. *)
Variable json_loads : string -> option json.
(** [str(e)] for an exception. *)
Variable describe : exn -> string.
(** [str(v)] for a value that is not a string. *)
Variable py_repr : json -> string.

(** [response.json()] or [{"raw": response.text}], by the format. *)
Definition decode (fmt : string) (resp : http_response) : outcome json :=
  if String.eqb (PyStr.lower fmt) "json"
  then match json_body resp with
       | Some d => Ok d
       | None => Raise JSONDecodeError
       end
  else Ok (JObj {[ "raw" := JStr (text resp) ]}).

(** The payload under a ["body"] wrapper, decoded once more when it is a
    string. *)
Definition unwrap (data : json) : json :=
  match data with
  | JObj m =>
      match m !! "body" with
      | Some (JObj body) => JObj body
      | Some (JStr body) =>
          match json_loads body with
          | Some d => d
          | None => JObj {[ "raw" := JStr body ]}
          end
      | _ => data
      end
  | _ => data
  end.

(** The branch [response.status_code == 200] up to the extracted list. *)
Definition parse_response (fmt : string) (resp : http_response) (num_results : Z)
  : outcome (list (gmap string json)) :=
  do data <- decode fmt resp;
  extract_results (unwrap data) num_results.

Definition bump (c : gmap string (response * Z)) (st : state) : state :=
  {| cache := c; net_calls := S (net_calls st) |}.

(** [search_google_serp(query, num_results)]: the response returned and
    the state left behind. *)
Definition search_google_serp (query : string) (num_results : Z)
  (env : call_env) (st : state) : response * state :=
  if token_missing env then (missing_credential, st)
  else
    let cache_key := cache_key query num_results in
    match _cache_get cache_key (clock_get env) (cache st) with
    | (Some cached, c) => (cached, {| cache := c; net_calls := net_calls st |})
    | (None, c) =>
        match provider env with
        | HTimeout =>
            (failure "SERP API request timed out (30s)", bump c st)
        | HFault msg =>
            (failure ("SERP API error: " +:+ msg), bump c st)
        | HResponse resp =>
            if (status_code resp =? 200)%Z then
              match parse_response (format_type env) resp num_results with
              | Ok rs =>
                  let result := {| success := true; results := rs; error := None |} in
                  match rs with
                  | [] => (result, bump c st)
                  | _ :: _ =>
                      (result, bump (_cache_set cache_key result (clock_set env) c) st)
                  end
              | Raise e =>
                  (failure ("SERP API error: " +:+ describe e), bump c st)
              end
            else
              (failure ("SERP API failed: " +:+ pretty (status_code resp) +:+ " - "
                        +:+ PyStr.slice_upto 200 (text resp)),
               bump c st)
        end
    end.

(** The states the module can be in: [_CACHE] starts empty and only
    [search_google_serp] touches it. *)
Inductive reachable : state -> Prop :=
| reach_init : reachable initial_state
| reach_call st query num_results env :
    reachable st ->
    reachable (snd (search_google_serp query num_results env st)).

(** ** Relevance ranker and formatter *)

(** [sum(1 for kw in topic_keywords if kw.lower() in text)] *)
Fixpoint count_keywords (topic_keywords : list string) (text : string) : nat :=
  match topic_keywords with
  | [] => 0
  | kw :: kws =>
      (if PyStr.contains (PyStr.lower kw) text then 1 else 0)
      + count_keywords kws text
  end.

(** [relevance_score(r)] *)
Definition relevance_score (topic_keywords : list string) (r : gmap string json)
  : outcome nat :=
  match default (JStr "") (r !! "title") with
  | JStr title =>
      match default (JStr "") (r !! "snippet") with
      | JStr snippet =>
          Ok (count_keywords topic_keywords
                (PyStr.lower (title +:+ " " +:+ snippet)))
      | v => Raise (NotConcatenable v)
      end
  | v => Raise (NotConcatenable v)
  end.

(** Insertion of a scored item into a list sorted by descending score,
    after the items of greater or equal score. *)
Fixpoint insert_desc {A : Type} (x : nat * A) (l : list (nat * A)) : list (nat * A) :=
  match l with
  | [] => [x]
  | y :: l' => if Nat.leb (fst x) (fst y) then y :: insert_desc x l' else x :: l
  end.

(** [sorted(..., key=..., reverse=True)] on items already paired with
    their keys: a stable sort by descending key.  Items are inserted in
    list order, each behind the items of equal key placed before it. *)
Definition sorted_desc {A : Type} (l : list (nat * A)) : list (nat * A) :=
  fold_left (fun acc x => insert_desc x acc) l [].

Definition score_item (topic_keywords : list string) (r : gmap string json)
  : outcome (nat * gmap string json) :=
  do k <- relevance_score topic_keywords r; Ok (k, r).

(** The value of [results] once the [if topic_keywords:] block is done. *)
Definition ranked (results : list (gmap string json))
  (topic_keywords : option (list string)) : outcome (list (gmap string json)) :=
  match topic_keywords with
  | Some (kw :: kws) =>
      do scored <- for_each (score_item (kw :: kws)) results;
      Ok (map snd (sorted_desc scored))
  | _ => Ok results
  end.

Definition py_str (v : json) : string :=
  match v with
  | JStr s => s
  | _ => py_repr v
  end.

(** The lines appended for the result numbered [i]. *)
Definition render_item (i : nat) (r : gmap string json) : string :=
  "[" +:+ pretty i +:+ "] " +:+ py_str (default (JStr "No title") (r !! "title")) +:+ nl
  +:+ "    Snippet: " +:+ py_str (default (JStr "No snippet") (r !! "snippet")) +:+ nl
  +:+ (if truthy (default JNull (r !! "link"))
       then "    URL: " +:+ py_str (default JNull (r !! "link")) +:+ nl
       else "")
  +:+ nl.

Fixpoint render_from (i : nat) (results : list (gmap string json)) : string :=
  match results with
  | [] => ""
  | r :: rs => render_item i r +:+ render_from (S i) rs
  end.

(** The header and the numbered entries, for the list in display order. *)
Definition page (rs : list (gmap string json)) : string :=
  "=== Google Search Results (" +:+ pretty (length rs) +:+ " found) ==="
  +:+ nl +:+ nl +:+ render_from 1 rs.

(** [format_serp_results(results, topic_keywords)] *)
Definition format_serp_results (results : list (gmap string json))
  (topic_keywords : option (list string)) : outcome string :=
  match results with
  | [] => Ok "No results found."
  | _ :: _ => do rs <- ranked results topic_keywords; Ok (page rs)
  end.

End Client.

(** ** Vocabulary of the statements *)

(** [list(enumerate(l))], counting from [i] *)
Definition enumerate_from {A : Type} (i : nat) (l : list A) : list (nat * A) :=
  combine (seq i (length l)) l.

Definition long_enough (p : nat * string) : bool :=
  Nat.ltb 30 (String.length (snd p)).

(** The synthetic result for the match [snd p] found at index [fst p]. *)
Definition synthetic (p : nat * string) : gmap string json :=
  mk_result (JStr ("Result " +:+ pretty (fst p + 1)))
            (JStr (PyStr.take 300 (snd p))) (JStr "").

(** The raw-text strategy as the specification words it: the first
    [num_results] of the matches longer than 30 characters, numbered along
    the produced list. *)
Definition raw_results_as_stated (matches : list string) (num_results : nat)
  : list (gmap string json) :=
  map synthetic
    (enumerate_from 0 (take num_results
       (List.filter (fun s => Nat.ltb 30 (String.length s)) matches))).

Definition sliceable (v : json) : Prop :=
  match v with
  | JArr _ | JStr _ => True
  | _ => False
  end.

(** A dict payload whose selected field has the type its strategy expects. *)
Definition payload_ok (data : json) : Prop :=
  match data with
  | JObj m =>
      match m !! "organic", m !! "results", m !! "raw" with
      | Some v, _, _ => sliceable v
      | None, Some v, _ => sliceable v
      | None, None, Some (JStr _) => True
      | None, None, Some _ => False
      | None, None, None => True
      end
  | _ => False
  end.

Definition seq_len (v : json) : nat :=
  match v with
  | JArr l => length l
  | JStr s => String.length s
  | _ => 0
  end.

(** How many candidate items the selected strategy has before slicing. *)
Definition candidates (data : json) : nat :=
  match data with
  | JObj m =>
      match m !! "organic", m !! "results", m !! "raw" with
      | Some v, _, _ => seq_len v
      | None, Some v, _ => seq_len v
      | None, None, Some (JStr text) => length (find_snippets text)
      | _, _, _ => 0
      end
  | _ => 0
  end.

(** The snippet of a result is a string or a list of at most 300 elements. *)
Definition snippet_bounded (r : gmap string json) : Prop :=
  exists v k, r !! "snippet" = Some v /\ py_len v = Some k /\ k <= 300.

(** The invariant of a [SearchResponse]. *)
Definition response_invariant (r : response) : Prop :=
  (success r = false -> results r = []) /\
  (error r <> None <-> success r = false).

(** Every cache entry is a successful response with at least one result. *)
Definition cache_sound (c : gmap string (response * Z)) : Prop :=
  forall k v ts, c !! k = Some (v, ts) ->
    success v = true /\ error v = None /\ results v <> [].

Definition with_token (tok : string) (env : call_env) : call_env :=
  {| api_token := Some tok; serp_format := serp_format env;
     clock_get := clock_get env; clock_set := clock_set env;
     provider := provider env |}.

(** The title and the snippet of a result, where they are strings. *)
Definition text_of (k : string) (r : gmap string json) : string :=
  match r !! k with
  | Some (JStr s) => s
  | _ => ""
  end.

(** A result whose title and snippet, when present, are strings. *)
Definition text_fields (r : gmap string json) : Prop :=
  (forall v, r !! "title" = Some v -> exists s, v = JStr s) /\
  (forall v, r !! "snippet" = Some v -> exists s, v = JStr s).

(** Number of keywords found, case folded, in the title, a space and the
    snippet. *)
Definition score (topic_keywords : list string) (r : gmap string json) : nat :=
  count_keywords topic_keywords
    (PyStr.lower (text_of "title" r +:+ " " +:+ text_of "snippet" r)).

(** The score as the specification words it: keywords found in the
    concatenation of title and snippet, nothing in between. *)
Definition score_as_stated (topic_keywords : list string) (r : gmap string json) : nat :=
  count_keywords topic_keywords
    (PyStr.lower (text_of "title" r +:+ text_of "snippet" r)).

(** Descending order of the keys of scored items. *)
Definition desc {A : Type} (a b : nat * A) : Prop := fst b <= fst a.

(** A scored item carries the score of its result. *)
Definition tagged (topic_keywords : list string) (p : nat * gmap string json) : Prop :=
  fst p = score topic_keywords (snd p).

Definition has_key {A : Type} (k : nat) (p : nat * A) : bool := Nat.eqb (fst p) k.

Definition has_score (topic_keywords : list string) (k : nat)
  (r : gmap string json) : bool :=
  Nat.eqb (score topic_keywords r) k.

(** A configured credential and an answer of the provider, for examples. *)
Definition env_with (tok : option string) (answer : json) : call_env :=
  {| api_token := tok; serp_format := None; clock_get := 10; clock_set := 11;
     provider := HResponse {| status_code := 200; text := ""; json_body := Some answer |} |}.

(** [c in s] for a character [c] *)
Fixpoint has_char (c : ascii) (s : string) : bool :=
  match s with
  | EmptyString => false
  | String a s' => Ascii.eqb a c || has_char c s'
  end.

(** A JSON value that is neither a dict, a list nor a string. *)
Definition scalar (d : json) : Prop :=
  match d with
  | JNull | JBool _ | JInt _ | JFloat _ => True
  | _ => False
  end.

(** A payload in which none of the three membership tests succeeds, and
    which has no ["body"] wrapper. *)
Definition unrecognised (d : json) : Prop :=
  match d with
  | JObj m =>
      m !! "body" = None /\ m !! "organic" = None /\
      m !! "results" = None /\ m !! "raw" = None
  | JArr l =>
      existsb (is_str "organic") l = false /\
      existsb (is_str "results") l = false /\
      existsb (is_str "raw") l = false
  | JStr s =>
      PyStr.contains "organic" s = false /\
      PyStr.contains "results" s = false /\
      PyStr.contains "raw" s = false
  | _ => False
  end.

(** A provider answer with status 200. *)
Definition ok_response (body : string) (decoded : option json) : http_response :=
  {| status_code := 200; text := body; json_body := decoded |}.

(** An organic item the loop body accepts: a dict whose snippet source
    (the description, else the snippet, else the empty string) can be
    sliced. *)
Definition item_ok (item : json) : Prop :=
  match item with
  | JObj im =>
      sliceable (default (default (JStr "") (im !! "snippet")) (im !! "description"))
  | _ => False
  end.

Definition not_dict (item : json) : Prop :=
  match item with
  | JObj _ => False
  | _ => True
  end.

(** The three keys of a result dict. *)
Definition result_keys : gset string := {[ "title"; "snippet"; "link" ]}.

Definition is_sentence_end (c : ascii) : bool :=
  Ascii.eqb c "." || Ascii.eqb c "!" || Ascii.eqb c "?".

Fixpoint str_forall (f : ascii -> bool) (s : string) : bool :=
  match s with
  | EmptyString => true
  | String c s' => f c && str_forall f s'
  end.

(** [s[k:]] for a natural [k] *)
Fixpoint str_drop (k : nat) (s : string) : string :=
  match k, s with
  | S k', String _ s' => str_drop k' s'
  | _, _ => s
  end.

(** At least five characters without sentence punctuation, then one
    sentence punctuation mark. *)
Definition snippet_like (s : string) : Prop :=
  exists body e,
    s = body +:+ String e EmptyString /\
    5 <= String.length body /\
    str_forall (fun a => negb (is_sentence_end a)) body = true /\
    is_sentence_end e = true.

(** The strings of [ms] occur in [s] one after the other, without
    overlap. *)
Inductive occur_in_order : list string -> string -> Prop :=
| occur_done s : occur_in_order [] s
| occur_skip ms c s : occur_in_order ms s -> occur_in_order ms (String c s)
| occur_here m ms s : occur_in_order ms s -> occur_in_order (m :: ms) (m +:+ s).

(** A result whose title or snippet is present and is not a string. *)
Definition bad_text (r : gmap string json) : Prop :=
  match default (JStr "") (r !! "title"), default (JStr "") (r !! "snippet") with
  | JStr _, JStr _ => False
  | _, _ => True
  end.

(** "CAF" followed by U+00C9, and "caf" followed by U+00E9. *)
Definition CAFE_upper : string := "CAF" +:+ String (ascii_of_nat 201) EmptyString.
Definition cafe_lower : string := "caf" +:+ String (ascii_of_nat 233) EmptyString.

(** ** Facts about strings *)

Lemma lower_char_idem (c : ascii) :
  PyStr.lower_char (PyStr.lower_char c) = PyStr.lower_char c.
Proof. destruct c as [[] [] [] [] [] [] [] []]; reflexivity. Qed.

Lemma str_take_length (k : nat) (s : string) :
  String.length (PyStr.take k s) <= k.
Proof.
  revert s; induction k as [| k IH]; intros [| c s]; simpl; try lia.
  specialize (IH s); lia.
Qed.

Lemma str_slice_upto_length (n : Z) (s : string) :
  (0 <= n)%Z -> String.length (PyStr.slice_upto n s) <= Z.to_nat n.
Proof.
  intros Hn. unfold PyStr.slice_upto.
  destruct (Z.leb_spec 0 n); [apply str_take_length | lia].
Qed.

Lemma slice_upto_length {A : Type} (n : Z) (l : list A) :
  (0 <= n)%Z -> length (slice_upto n l) <= Z.to_nat n.
Proof.
  intros Hn. unfold slice_upto.
  destruct (Z.leb_spec 0 n); [rewrite length_take; lia | lia].
Qed.

(** ** The cache key *)

Lemma has_char_app (c : ascii) (s t : string) :
  has_char c (s +:+ t) = has_char c s || has_char c t.
Proof.
  induction s as [| a s IH]; [reflexivity |].
  change (String a s +:+ t) with (String a (s +:+ t)).
  cbn [has_char]. now rewrite IH, orb_assoc.
Qed.

Lemma pretty_N_go_no_colon (x : N) (s : string) :
  has_char ":" s = false -> has_char ":" (pretty_N_go x s) = false.
Proof.
  revert s. induction (N.lt_wf_0 x) as [x _ IH]; intros s Hs.
  destruct (N.eq_dec x 0%N) as [-> | Hx].
  - now rewrite pretty_N_go_0.
  - rewrite pretty_N_go_step by lia. apply IH.
    + apply N.div_lt; lia.
    + cbn [has_char]. rewrite Hs, orb_false_r.
      unfold pretty_N_char. now repeat case_match.
Qed.

Lemma pretty_Z_no_colon (z : Z) : has_char ":" (pretty z) = false.
Proof.
  assert (HN : forall x : N, has_char ":" (pretty x) = false).
  { intros x. unfold pretty, pretty_N. case_decide; [reflexivity |].
    now apply pretty_N_go_no_colon. }
  destruct z as [| p | p]; [reflexivity | apply HN |].
  unfold pretty, pretty_Z. rewrite has_char_app. cbn. apply HN.
Qed.

(** The separator before the count is the last ["::"] of a key. *)
Lemma key_suffix_unique (s1 s2 p1 p2 : string) :
  has_char ":" p1 = false -> has_char ":" p2 = false ->
  s1 +:+ "::" +:+ p1 = s2 +:+ "::" +:+ p2 -> s1 = s2 /\ p1 = p2.
Proof.
  assert (Hend : forall s p p', has_char ":" p = false ->
            String ":" (String ":" p) <> String ":" (s +:+ "::" +:+ p')).
  { intros s p p' Hp E. injection E as E.
    destruct s as [| a s].
    - change (String ":" p = String ":" (String ":" p')) in E.
      injection E as ->. cbn in Hp. discriminate.
    - change (String ":" p = String a (s +:+ "::" +:+ p')) in E.
      injection E as _ ->. rewrite has_char_app in Hp.
      cbn in Hp. rewrite orb_true_r in Hp. discriminate. }
  intros H1 H2. revert s2.
  induction s1 as [| a s1 IH]; intros [| b s2] E.
  - change (String ":" (String ":" p1) = String ":" (String ":" p2)) in E.
    injection E as ->. now split.
  - exfalso.
    change (String ":" (String ":" p1) = String b (s2 +:+ "::" +:+ p2)) in E.
    assert (b = ":"%char) as -> by (now injection E).
    exact (Hend s2 p1 p2 H1 E).
  - exfalso.
    change (String a (s1 +:+ "::" +:+ p1) = String ":" (String ":" p2)) in E.
    assert (a = ":"%char) as -> by (now injection E).
    symmetry in E. exact (Hend s1 p2 p1 H2 E).
  - change (String a (s1 +:+ "::" +:+ p1) = String b (s2 +:+ "::" +:+ p2)) in E.
    injection E as -> E. destruct (IH s2 E) as [-> ->]. now split.
Qed.

(** C1 (as amended): two queries with the same lower-cased form, asked
    with the same [num_results], get the same cache key, the key being
    built from the lower-cased query; and two requests whose result counts
    differ get different keys, whatever their queries. *)
Theorem cache_key_case_insensitive (q1 q2 : string) (n : Z) :
  (PyStr.lower q1 = PyStr.lower q2 -> cache_key q1 n = cache_key q2 n) /\
  (forall n', n <> n' -> cache_key q1 n <> cache_key q2 n').
Proof.
  unfold cache_key. split.
  - now intros ->.
  - intros n' Hne E. apply Hne.
    apply String.app_inj in E.
    apply key_suffix_unique in E as [_ E]; try apply pretty_Z_no_colon.
    now apply (inj pretty).
Qed.

Lemma cache_key_case_insensitive_witness :
  cache_key CAFE_upper 10 = cache_key cafe_lower 10 /\
  cache_key "Hotel" 10 = cache_key "hotel" 10 /\
  cache_key "Hotel" 10 <> cache_key "hotel" 3.
Proof.
  split; [| split].
  - apply (cache_key_case_insensitive CAFE_upper cafe_lower 10). reflexivity.
  - apply (cache_key_case_insensitive "Hotel" "hotel" 10). reflexivity.
  - apply (cache_key_case_insensitive "Hotel" "hotel" 10). discriminate.
Defined.

(** C1 (as stated) fails: "Hotel" and "hotel" are different queries that
    differ only in letter case, and with the same count they share one
    cache key. *)
Lemma cache_key_case_collision :
  "Hotel" <> "hotel" /\ PyStr.lower "Hotel" = "hotel" /\
  cache_key "Hotel" 10 = cache_key "hotel" 10.
Proof. split; [discriminate |]. split; reflexivity. Qed.

(** Keys do separate result counts. *)
Lemma cache_key_count_injective (q : string) (n1 n2 : Z) :
  cache_key q n1 = cache_key q n2 -> n1 = n2.
Proof.
  unfold cache_key. intros H.
  repeat apply String.app_inj in H.
  now apply (inj pretty) in H.
Qed.


(** ** Facts about the extractor *)

Lemma for_each_Forall {A B : Type} (f : A -> outcome B) (P : B -> Prop)
  (l : list A) (bs : list B) :
  (forall a b, f a = Ok b -> P b) -> for_each f l = Ok bs -> Forall P bs.
Proof.
  intros Hf. revert bs.
  induction l as [| a l IH]; simpl; intros bs H.
  - injection H as <-. constructor.
  - destruct (f a) as [b |] eqn:Ea; simpl in H; [| discriminate].
    destruct (for_each f l) as [bs' |]; simpl in H; [| discriminate].
    injection H as <-. constructor; eauto.
Qed.

Lemma for_each_length {A B : Type} (f : A -> outcome B) (l : list A) (bs : list B) :
  for_each f l = Ok bs -> length bs = length l.
Proof.
  revert bs. induction l as [| a l IH]; simpl; intros bs H.
  - now injection H as <-.
  - destruct (f a) as [b |]; simpl in H; [| discriminate].
    destruct (for_each f l) as [bs' |]; simpl in H; [| discriminate].
    injection H as <-. simpl. now rewrite (IH bs').
Qed.

Lemma mk_result_snippet (t s l : json) : mk_result t s l !! "snippet" = Some s.
Proof. unfold mk_result. now rewrite lookup_insert_ne, lookup_insert_eq. Qed.

Lemma slice_300_bounded (v s : json) :
  slice 300 v = Ok s -> exists k, py_len s = Some k /\ k <= 300.
Proof.
  destruct v; simpl; intros H; try discriminate; injection H as <-; simpl.
  - eexists; split; [reflexivity |].
    pose proof (str_slice_upto_length 300 s0). lia.
  - eexists; split; [reflexivity |].
    pose proof (slice_upto_length 300 l). lia.
Qed.

Lemma organic_item_bounded (item : json) (r : gmap string json) :
  organic_item item = Ok r -> snippet_bounded r.
Proof.
  unfold organic_item. destruct item; simpl; try discriminate.
  destruct (slice 300 _) as [s |] eqn:Es; simpl; [| discriminate].
  intros H; injection H as <-.
  destruct (slice_300_bounded _ _ Es) as (k & Hk & Hle).
  exists s, k. now rewrite mk_result_snippet.
Qed.

Lemma generic_item_bounded (item : json) (r : gmap string json) :
  generic_item item = Ok r -> snippet_bounded r.
Proof.
  unfold generic_item. destruct item; simpl; try discriminate.
  destruct (slice 300 _) as [s |] eqn:Es; simpl; [| discriminate].
  intros H; injection H as <-.
  destruct (slice_300_bounded _ _ Es) as (k & Hk & Hle).
  exists s, k. now rewrite mk_result_snippet.
Qed.

Lemma raw_items_bounded (i : nat) (l : list string) :
  Forall snippet_bounded (raw_items i l).
Proof.
  revert i. induction l as [| s l IH]; intros i; simpl; [constructor |].
  destruct (Nat.ltb 30 (String.length s)); [| apply IH].
  constructor; [| apply IH].
  eexists _, _. rewrite mk_result_snippet. split; [reflexivity |].
  split; [reflexivity |].
  pose proof (str_slice_upto_length 300 s). lia.
Qed.

Lemma organic_strategy_bounded (data : json) (n : Z) (rs : list (gmap string json)) :
  organic_strategy data n = Ok rs -> Forall snippet_bounded rs.
Proof.
  unfold organic_strategy.
  destruct (subscript "organic" data) as [v |]; simpl; [| discriminate].
  destruct (slice n v) as [sl |]; simpl; [| discriminate].
  apply for_each_Forall, organic_item_bounded.
Qed.

Lemma generic_strategy_bounded (data : json) (n : Z) (rs : list (gmap string json)) :
  generic_strategy data n = Ok rs -> Forall snippet_bounded rs.
Proof.
  unfold generic_strategy.
  destruct (subscript "results" data) as [v |]; simpl; [| discriminate].
  destruct (slice n v) as [sl |]; simpl; [| discriminate].
  apply for_each_Forall, generic_item_bounded.
Qed.

Lemma raw_strategy_bounded (data : json) (n : Z) (rs : list (gmap string json)) :
  raw_strategy data n = Ok rs -> Forall snippet_bounded rs.
Proof.
  unfold raw_strategy.
  destruct (subscript "raw" data) as [v |]; simpl; [| discriminate].
  destruct v; try discriminate.
  intros H; injection H as <-. apply raw_items_bounded.
Qed.

(** C5: whatever strategy produced it, the snippet of every extracted
    result has length at most 300. *)
Theorem snippet_bound (data : json) (n : Z) (rs : list (gmap string json)) :
  extract_results data n = Ok rs -> Forall snippet_bounded rs.
Proof.
  unfold extract_results.
  destruct (contains_key "organic" data) as [[|] |]; simpl; [| | discriminate].
  { apply organic_strategy_bounded. }
  destruct (contains_key "results" data) as [[|] |]; simpl; [| | discriminate].
  { apply generic_strategy_bounded. }
  destruct (contains_key "raw" data) as [[|] |]; simpl; [| | discriminate].
  { apply raw_strategy_bounded. }
  intros H; injection H as <-. constructor.
Qed.

Lemma snippet_bound_witness :
  Forall snippet_bounded
    [mk_result (JStr "Inn") (JStr "Quiet rooms") (JStr "")].
Proof.
  apply (snippet_bound
           (JObj {[ "organic" :=
                      JArr [JObj (<["title" := JStr "Inn"]>
                                    {[ "description" := JStr "Quiet rooms" ]})] ]})
           10).
  vm_compute. reflexivity.
Defined.

Lemma contains_key_dict (k : string) (m : gmap string json) (v : json) :
  m !! k = Some v -> contains_key k (JObj m) = Ok true.
Proof.
  intros H. simpl. rewrite bool_decide_eq_true_2; [reflexivity |].
  rewrite H. eauto.
Qed.

Lemma contains_key_dict_None (k : string) (m : gmap string json) :
  m !! k = None -> contains_key k (JObj m) = Ok false.
Proof.
  intros H. simpl. rewrite bool_decide_eq_false_2; [reflexivity |].
  rewrite H. intros [? ?]; discriminate.
Qed.



(** ** Non-positive result counts *)

Lemma slice_upto_negative {A : Type} (n : Z) (l : list A) :
  (n < 0)%Z ->
  slice_upto n l = slice_upto (Z.max 0 (Z.of_nat (length l) + n)) l.
Proof.
  intros Hn. unfold slice_upto.
  destruct (Z.leb_spec 0 n); [lia |].
  destruct (Z.leb_spec 0 (Z.max 0 (Z.of_nat (length l) + n))); [| lia].
  f_equal. lia.
Qed.

Lemma str_slice_upto_negative (n : Z) (s : string) :
  (n < 0)%Z ->
  PyStr.slice_upto n s
  = PyStr.slice_upto (Z.max 0 (Z.of_nat (String.length s) + n)) s.
Proof.
  intros Hn. unfold PyStr.slice_upto.
  destruct (Z.leb_spec 0 n); [lia |].
  destruct (Z.leb_spec 0 (Z.max 0 (Z.of_nat (String.length s) + n))); [| lia].
  f_equal. lia.
Qed.

Lemma slice_negative (n : Z) (v : json) :
  (n < 0)%Z -> slice n v = slice (Z.max 0 (Z.of_nat (seq_len v) + n)) v.
Proof.
  intros Hn. destruct v; simpl; try reflexivity.
  - now rewrite (str_slice_upto_negative n s Hn).
  - now rewrite (slice_upto_negative n l Hn).
Qed.

Lemma slice_zero_items (v sl : json) : slice 0 v = Ok sl -> items sl = [].
Proof.
  destruct v; simpl; intros H; try discriminate; injection H as <-; reflexivity.
Qed.

Lemma sliceable_slice (n : Z) (v : json) : sliceable v -> exists sl, slice n v = Ok sl.
Proof. destruct v; simpl; intros H; try contradiction; eauto. Qed.

Lemma extract_results_dict (m : gmap string json) (n : Z) :
  extract_results (JObj m) n
  = match m !! "organic", m !! "results", m !! "raw" with
    | Some _, _, _ => organic_strategy (JObj m) n
    | None, Some _, _ => generic_strategy (JObj m) n
    | None, None, Some _ => raw_strategy (JObj m) n
    | None, None, None => Ok []
    end.
Proof.
  unfold extract_results.
  destruct (m !! "organic") as [v |] eqn:Eo.
  { now rewrite (contains_key_dict _ _ _ Eo). }
  rewrite (contains_key_dict_None _ _ Eo). cbn [obind].
  destruct (m !! "results") as [v |] eqn:Er.
  { now rewrite (contains_key_dict _ _ _ Er). }
  rewrite (contains_key_dict_None _ _ Er). cbn [obind].
  destruct (m !! "raw") as [v |] eqn:Ew.
  { now rewrite (contains_key_dict _ _ _ Ew). }
  now rewrite (contains_key_dict_None _ _ Ew).
Qed.

Lemma sliced_strategy_zero (f : json -> outcome (gmap string json)) (v : json) :
  sliceable v -> (do sl <- slice 0 v; for_each f (items sl)) = Ok [].
Proof.
  intros Hv. destruct (sliceable_slice 0 v Hv) as [sl Esl].
  rewrite Esl. cbn [obind]. now rewrite (slice_zero_items _ _ Esl).
Qed.

Lemma extract_results_zero (data : json) :
  payload_ok data -> extract_results data 0 = Ok [].
Proof.
  destruct data as [| | | | | | m]; simpl; try contradiction.
  intros Hok. rewrite extract_results_dict.
  unfold organic_strategy, generic_strategy, raw_strategy. cbn [subscript].
  destruct (m !! "organic") as [v |].
  { cbn [obind]. now apply sliced_strategy_zero. }
  destruct (m !! "results") as [v |].
  { cbn [obind]. now apply sliced_strategy_zero. }
  destruct (m !! "raw") as [v |]; [| reflexivity].
  destruct v; try contradiction. reflexivity.
Qed.

Lemma extract_results_negative (data : json) (n : Z) :
  payload_ok data -> (n < 0)%Z ->
  extract_results data n
  = extract_results data (Z.max 0 (Z.of_nat (candidates data) + n)).
Proof.
  destruct data as [| | | | | | m]; simpl; try contradiction.
  intros Hok Hn. rewrite !extract_results_dict.
  unfold organic_strategy, generic_strategy, raw_strategy. cbn [subscript].
  destruct (m !! "organic") as [v |].
  { cbn [obind]. now rewrite (slice_negative n v Hn). }
  destruct (m !! "results") as [v |].
  { cbn [obind]. now rewrite (slice_negative n v Hn). }
  destruct (m !! "raw") as [v |]; [| reflexivity].
  destruct v; try contradiction. cbn [obind].
  now rewrite (slice_upto_negative n _ Hn).
Qed.

(** C2 (as amended): on a payload whose selected field has the expected
    type, a count of 0 makes every strategy take an empty slice, so the
    result list is empty and nothing is raised; a negative count [-k] makes
    the strategy take its candidates without the last [k], that is, it
    behaves like the count [max 0 (candidates - k)], and the result list is
    empty when there are at most [k] candidates. *)
Theorem nonpositive_count (data : json) (n : Z) :
  payload_ok data -> (n <= 0)%Z ->
  (n = 0%Z -> extract_results data n = Ok []) /\
  ((n < 0)%Z ->
     extract_results data n
     = extract_results data (Z.max 0 (Z.of_nat (candidates data) + n))) /\
  ((Z.of_nat (candidates data) <= - n)%Z -> extract_results data n = Ok []).
Proof.
  intros Hok Hn. split; [| split].
  - intros ->. now apply extract_results_zero.
  - now apply extract_results_negative.
  - intros Hc. destruct (Z.eq_dec n 0%Z) as [-> | Hne].
    + now apply extract_results_zero.
    + rewrite extract_results_negative by (auto; lia).
      replace (Z.max 0 (Z.of_nat (candidates data) + n)) with 0%Z by lia.
      now apply extract_results_zero.
Qed.

Lemma nonpositive_count_witness :
  extract_results
    (JObj {[ "organic" := JArr [JObj {[ "title" := JStr "a" ]};
                                JObj {[ "title" := JStr "b" ]};
                                JObj {[ "title" := JStr "c" ]}] ]}) (-2)
  = extract_results
      (JObj {[ "organic" := JArr [JObj {[ "title" := JStr "a" ]};
                                  JObj {[ "title" := JStr "b" ]};
                                  JObj {[ "title" := JStr "c" ]}] ]}) 1.
Proof.
  refine (proj1 (proj2 (nonpositive_count _ (-2) _ _)) _).
  - exact I.
  - lia.
  - lia.
Defined.

(** C2 (as stated) fails: with [num_results = -1] and two organic items the
    slice keeps the first item, and the result list is not empty. *)
Lemma negative_count_keeps_items :
  (-1 <= 0)%Z /\
  extract_results
    (JObj {[ "organic" := JArr [JObj {[ "title" := JStr "a" ]};
                                JObj {[ "title" := JStr "b" ]}] ]}) (-1)
  = Ok [mk_result (JStr "a") (JStr "") (JStr "")].
Proof. split; [lia | vm_compute; reflexivity]. Qed.

(** ** The raw-text strategy *)

Lemma raw_items_enumerate (i : nat) (l : list string) :
  raw_items i l = map synthetic (List.filter long_enough (enumerate_from i l)).
Proof.
  revert i. induction l as [| s l IH]; intros i; [reflexivity |].
  unfold enumerate_from in *. simpl. unfold long_enough at 1. simpl.
  destruct (Nat.ltb 30 (String.length s)); simpl; now rewrite IH.
Qed.

(** C3 (as amended): on a payload with a ["raw"] text and neither
    ["organic"] nor ["results"], the produced list holds, in order, those of
    the matches in the slice [snippets[:num_results]] that are longer than 30
    characters; the match at index [i] of the slice gets the title
    ["Result (i+1)"] (its position among all matches, so numbers may be
    skipped), its first 300 characters as snippet, and an empty link. *)
Theorem raw_strategy_results (m : gmap string json) (text : string) (n : Z) :
  m !! "organic" = None -> m !! "results" = None ->
  m !! "raw" = Some (JStr text) ->
  extract_results (JObj m) n
  = Ok (map synthetic
          (List.filter long_enough
             (enumerate_from 0 (slice_upto n (find_snippets text))))).
Proof.
  intros Eo Er Ew. rewrite extract_results_dict, Eo, Er, Ew.
  unfold raw_strategy. cbn [subscript]. rewrite Ew. cbn [obind].
  now rewrite raw_items_enumerate.
Qed.

Lemma raw_strategy_results_witness :
  extract_results
    (JObj {[ "raw" := JStr "Ok. The hotel room was very clean and quiet." ]}) 3
  = Ok (map synthetic
          (List.filter long_enough
             (enumerate_from 0
                (slice_upto 3
                   (find_snippets "Ok. The hotel room was very clean and quiet."))))).
Proof.
  apply (raw_strategy_results
           {[ "raw" := JStr "Ok. The hotel room was very clean and quiet." ]});
    reflexivity.
Defined.

(** C3 (as stated) fails.  The text below has two matches, the first of 15
    characters.  With [num_results = 1] the code produces nothing, where the
    statement keeps the second match; with [num_results = 2] the code
    titles the second match "Result 2", where the statement numbers it 1. *)
Lemma raw_strategy_not_as_stated :
  let text := "The room is ok. The hotel room was very clean and quiet all night." in
  let long := "The hotel room was very clean and quiet all night." in
  find_snippets text = ["The room is ok."; long] /\
  extract_results (JObj {[ "raw" := JStr text ]}) 1 = Ok [] /\
  raw_results_as_stated (find_snippets text) 1 = [synthetic (0, long)] /\
  extract_results (JObj {[ "raw" := JStr text ]}) 2 = Ok [synthetic (1, long)] /\
  raw_results_as_stated (find_snippets text) 2 = [synthetic (0, long)] /\
  synthetic (1, long) <> synthetic (0, long).
Proof.
  cbv zeta. repeat split; try (vm_compute; reflexivity).
  intros H.
  apply (f_equal (fun r : gmap string json => r !! "title")) in H.
  vm_compute in H. discriminate.
Qed.

(** ** Facts about the cache and the client *)

Lemma failure_invariant (msg : string) : response_invariant (failure msg).
Proof. split; [reflexivity |]. split; [reflexivity | discriminate]. Qed.

Lemma cache_get_miss (key : string) (now : Z) (c c' : gmap string (response * Z)) :
  _cache_get key now c = (None, c') -> c' !! key = None.
Proof.
  unfold _cache_get. destruct (c !! key) as [[v ts] |] eqn:E.
  - destruct (_CACHE_TTL_SEC <? now - ts)%Z; intros H; [| discriminate].
    injection H as <-. apply lookup_delete_eq.
  - intros H. now injection H as <-.
Qed.

Lemma cache_get_entries (key : string) (now : Z) (c c' : gmap string (response * Z))
  (o : option response) :
  _cache_get key now c = (o, c') ->
  forall k e, c' !! k = Some e -> c !! k = Some e.
Proof.
  unfold _cache_get. destruct (c !! key) as [[v ts] |] eqn:E.
  - destruct (_CACHE_TTL_SEC <? now - ts)%Z; intros H; injection H as <- <-;
      intros k e Hk; [| exact Hk].
    rewrite lookup_delete in Hk. case_decide; [discriminate | exact Hk].
  - intros H. injection H as <- <-. auto.
Qed.

Lemma cache_get_hit (key : string) (now : Z) (c c' : gmap string (response * Z))
  (v : response) :
  _cache_get key now c = (Some v, c') ->
  c' = c /\ exists ts, c !! key = Some (v, ts) /\ (now - ts <= _CACHE_TTL_SEC)%Z.
Proof.
  unfold _cache_get. destruct (c !! key) as [[v' ts] |] eqn:E; [| discriminate].
  destruct (Z.ltb_spec _CACHE_TTL_SEC (now - ts)) as [Hlt | Hle];
    intros Heq; [discriminate |].
  injection Heq as <- <-. split; [reflexivity |]. exists ts. now split.
Qed.

Lemma cache_get_fresh (key : string) (now : Z) (c : gmap string (response * Z))
  (v : response) (ts : Z) :
  c !! key = Some (v, ts) -> (now - ts <= _CACHE_TTL_SEC)%Z ->
  _cache_get key now c = (Some v, c).
Proof.
  intros E Hle. unfold _cache_get. rewrite E.
  destruct (Z.ltb_spec _CACHE_TTL_SEC (now - ts)) as [Hlt | _]; [lia | reflexivity].
Qed.

Lemma cache_get_absent (key : string) (now : Z) (c : gmap string (response * Z)) :
  c !! key = None -> _cache_get key now c = (None, c).
Proof. intros E. unfold _cache_get. now rewrite E. Qed.

Lemma cache_sound_sub (c c' : gmap string (response * Z)) :
  (forall k e, c' !! k = Some e -> c !! k = Some e) ->
  cache_sound c -> cache_sound c'.
Proof. intros Hsub Hc k v ts Hk. eapply Hc, Hsub, Hk. Qed.

Lemma cache_sound_set (key : string) (v : response) (now : Z)
  (c : gmap string (response * Z)) :
  success v = true -> error v = None -> results v <> [] ->
  cache_sound c -> cache_sound (_cache_set key v now c).
Proof.
  intros H1 H2 H3 Hc k v' ts. unfold _cache_set. rewrite lookup_insert.
  case_decide.
  - intros Heq. injection Heq as <- <-. auto.
  - apply Hc.
Qed.

Section ClientFacts.

Variable json_loads : string -> option json.
Variable describe : exn -> string.

Abbreviation search := (search_google_serp json_loads describe).
Abbreviation reachable := (reachable json_loads describe).

(** What a call that gets past the credential check and misses the cache
    does: one HTTP request, then either a response without results and no
    write, or a successful response with results, stored under the key. *)
Lemma search_miss (q : string) (n : Z) (env : call_env) (st : state)
  (c : gmap string (response * Z)) :
  token_missing env = false ->
  _cache_get (cache_key q n) (clock_get env) (cache st) = (None, c) ->
  let r := fst (search q n env st) in
  let st' := snd (search q n env st) in
  net_calls st' = S (net_calls st) /\
  response_invariant r /\
  ((results r = [] /\ cache st' = c) \/
   (results r <> [] /\ success r = true /\ error r = None /\
    cache st' = _cache_set (cache_key q n) r (clock_set env) c)).
Proof.
  intros Htok Hget. unfold search_google_serp. rewrite Htok, Hget.
  destruct (provider env) as [| msg | resp]; cbn [fst snd].
  - split; [reflexivity |]. split; [apply failure_invariant |]. now left.
  - split; [reflexivity |]. split; [apply failure_invariant |]. now left.
  - destruct (status_code resp =? 200)%Z.
    + destruct (parse_response _ _ _ _) as [[| r0 rs] | e]; cbn [fst snd].
      * split; [reflexivity |]. split; [| now left].
        split; [discriminate |]. split; [intros H; now elim H | discriminate].
      * split; [reflexivity |]. split.
        { split; [discriminate |]. split; [intros H; now elim H | discriminate]. }
        right. repeat split. discriminate.
      * split; [reflexivity |]. split; [apply failure_invariant |]. now left.
    + split; [reflexivity |]. split; [apply failure_invariant |]. now left.
Qed.

Lemma search_hit (q : string) (n : Z) (env : call_env) (st : state)
  (v : response) (c : gmap string (response * Z)) :
  token_missing env = false ->
  _cache_get (cache_key q n) (clock_get env) (cache st) = (Some v, c) ->
  search q n env st = (v, st).
Proof.
  intros Htok Hget. unfold search_google_serp. rewrite Htok, Hget.
  destruct (cache_get_hit _ _ _ _ _ Hget) as [-> _]. now destruct st.
Qed.

Lemma search_no_token (q : string) (n : Z) (env : call_env) (st : state) :
  token_missing env = true -> search q n env st = (missing_credential, st).
Proof. intros H. unfold search_google_serp. now rewrite H. Qed.

Lemma search_preserves_sound (q : string) (n : Z) (env : call_env) (st : state) :
  cache_sound (cache st) -> cache_sound (cache (snd (search q n env st))).
Proof.
  intros Hc. destruct (token_missing env) eqn:Htok.
  { now rewrite search_no_token. }
  destruct (_cache_get (cache_key q n) (clock_get env) (cache st)) as [[v |] c] eqn:Hget.
  { now rewrite (search_hit _ _ _ _ _ _ Htok Hget). }
  pose proof (cache_sound_sub _ _ (cache_get_entries _ _ _ _ _ Hget) Hc) as Hc'.
  destruct (search_miss q n env st c Htok Hget) as (_ & _ & [[_ ->] | (H3 & H1 & H2 & ->)]).
  - exact Hc'.
  - now apply cache_sound_set.
Qed.

Lemma reachable_sound (st : state) : reachable st -> cache_sound (cache st).
Proof.
  induction 1 as [| st q n env _ IH].
  - intros k v ts Hk. cbn in Hk. now rewrite lookup_empty in Hk.
  - now apply search_preserves_sound.
Qed.

(** C4: every response of [search_google_serp] satisfies the invariant of
    [SearchResponse]: a failed response has no results, and the error is
    set exactly when the response is a failure.  The module is in a state
    it can reach from the empty cache through its own calls. *)
Theorem search_response_invariant (st : state) (q : string) (n : Z) (env : call_env) :
  reachable st -> response_invariant (fst (search q n env st)).
Proof.
  intros Hst. pose proof (reachable_sound st Hst) as Hc.
  destruct (token_missing env) eqn:Htok.
  { rewrite search_no_token by exact Htok. apply failure_invariant. }
  destruct (_cache_get (cache_key q n) (clock_get env) (cache st)) as [[v |] c] eqn:Hget.
  - rewrite (search_hit _ _ _ _ _ _ Htok Hget). cbn [fst].
    destruct (cache_get_hit _ _ _ _ _ Hget) as (_ & ts & Hk & _).
    destruct (Hc _ _ _ Hk) as (H1 & H2 & _).
    split; [congruence |]. split; congruence.
  - apply (search_miss q n env st c Htok Hget).
Qed.

(** C7: a call that gets past the credential check and returns no results
    leaves no entry under its key and writes nothing, so the same request,
    repeated at once, goes to the provider again. *)
Theorem no_negative_caching (st : state) (q : string) (n : Z) (env : call_env) :
  reachable st ->
  token_missing env = false ->
  results (fst (search q n env st)) = [] ->
  let st' := snd (search q n env st) in
  cache st' !! cache_key q n = None /\
  (forall k e, cache st' !! k = Some e -> cache st !! k = Some e) /\
  (forall env', token_missing env' = false ->
     net_calls (snd (search q n env' st')) = S (net_calls st')).
Proof.
  intros Hst Htok Hres st'. subst st'.
  pose proof (reachable_sound st Hst) as Hc.
  destruct (_cache_get (cache_key q n) (clock_get env) (cache st)) as [[v |] c] eqn:Hget.
  { exfalso. rewrite (search_hit _ _ _ _ _ _ Htok Hget) in Hres. cbn [fst] in Hres.
    destruct (cache_get_hit _ _ _ _ _ Hget) as (_ & ts & Hk & _).
    now destruct (Hc _ _ _ Hk) as (_ & _ & H3). }
  destruct (search_miss q n env st c Htok Hget) as (_ & _ & [[_ Hcache] | (H3 & _)]);
    [| contradiction].
  pose proof (cache_get_miss _ _ _ _ Hget) as Hnone.
  split; [| split].
  - now rewrite Hcache.
  - rewrite Hcache. apply (cache_get_entries _ _ _ _ _ Hget).
  - intros env' Htok'.
    apply (search_miss q n env' _ (cache (snd (search q n env st))) Htok').
    apply cache_get_absent. now rewrite Hcache.
Qed.

(** C9: without a credential the call returns at once a failure whose
    message names the variable [BRIGHTDATA_API_TOKEN]; no HTTP request is
    issued and the state is left as it was. *)
Theorem missing_credential_short_circuit (st : state) (q : string) (n : Z)
  (env : call_env) :
  token_missing env = true ->
  exists msg,
    fst (search q n env st)
    = {| success := false; results := []; error := Some msg |} /\
    PyStr.contains "BRIGHTDATA_API_TOKEN" msg = true /\
    net_calls (snd (search q n env st)) = net_calls st /\
    snd (search q n env st) = st.
Proof.
  intros H. rewrite search_no_token by exact H.
  eexists. split; [reflexivity |]. split; [reflexivity |]. now split.
Qed.

(** C10: the credential check comes before the cache lookup.  With a fresh
    entry stored for the query and count, a call without credential still
    returns the missing-credential failure and leaves the cache untouched,
    where the same call with a credential would have answered from the
    cache. *)
Theorem credential_check_precedes_cache (st : state) (q : string) (n : Z)
  (env : call_env) (v : response) (ts : Z) :
  cache st !! cache_key q n = Some (v, ts) ->
  (clock_get env - ts <= _CACHE_TTL_SEC)%Z ->
  token_missing env = true ->
  search q n env st = (missing_credential, st) /\
  (forall tok, tok <> "" -> search q n (with_token tok env) st = (v, st)).
Proof.
  intros Hk Hfresh Htok. split; [now apply search_no_token |].
  intros tok Hne.
  apply (search_hit _ _ _ _ v (cache st)).
  - unfold token_missing. cbn. now apply String.eqb_neq.
  - now apply cache_get_fresh with ts.
Qed.

End ClientFacts.

Lemma search_response_invariant_witness :
  response_invariant
    (fst (search_google_serp (fun _ => None) (fun _ => "") "wifi review" 3
            (env_with (Some "token")
               (JObj {[ "organic" := JArr [JObj {[ "title" := JStr "Inn" ]}] ]}))
            initial_state)).
Proof. apply search_response_invariant. apply reach_init. Defined.

Lemma no_negative_caching_witness :
  let call := search_google_serp (fun _ => None) (fun _ => "") "wifi review" 3
                (env_with (Some "token") (JObj ∅)) in
  net_calls (snd (call (snd (call initial_state)))) = 2.
Proof.
  cbv zeta.
  pose proof (no_negative_caching (fun _ => None) (fun _ => "") initial_state
                "wifi review" 3 (env_with (Some "token") (JObj ∅))
                (reach_init _ _) eq_refl eq_refl) as H.
  cbv zeta in H. destruct H as (_ & _ & H).
  rewrite (H (env_with (Some "token") (JObj ∅)) eq_refl). reflexivity.
Defined.

Lemma missing_credential_short_circuit_witness :
  exists msg,
    fst (search_google_serp (fun _ => None) (fun _ => "") "wifi review" 3
           (env_with None (JObj ∅)) initial_state)
    = {| success := false; results := []; error := Some msg |} /\
    PyStr.contains "BRIGHTDATA_API_TOKEN" msg = true /\
    net_calls (snd (search_google_serp (fun _ => None) (fun _ => "") "wifi review" 3
                      (env_with None (JObj ∅)) initial_state))
    = net_calls initial_state /\
    snd (search_google_serp (fun _ => None) (fun _ => "") "wifi review" 3
           (env_with None (JObj ∅)) initial_state)
    = initial_state.
Proof. apply missing_credential_short_circuit. reflexivity. Defined.

Lemma credential_check_precedes_cache_witness :
  let hit := {| success := true;
                results := [mk_result (JStr "Inn") (JStr "") (JStr "")];
                error := None |} in
  let st := {| cache := {[ cache_key "wifi review" 3 := (hit, 5%Z) ]};
               net_calls := 1 |} in
  search_google_serp (fun _ => None) (fun _ => "") "wifi review" 3
    (env_with None (JObj ∅)) st
  = (missing_credential, st) /\
  search_google_serp (fun _ => None) (fun _ => "") "wifi review" 3
    (with_token "token" (env_with None (JObj ∅))) st
  = (hit, st).
Proof.
  cbv zeta.
  pose proof (credential_check_precedes_cache (fun _ => None) (fun _ => "")
                {| cache := {[ cache_key "wifi review" 3 :=
                                 ({| success := true;
                                     results := [mk_result (JStr "Inn") (JStr "") (JStr "")];
                                     error := None |}, 5%Z) ]};
                   net_calls := 1 |}
                "wifi review" 3 (env_with None (JObj ∅)) _ 5%Z
                (lookup_singleton_eq _ _)) as H.
  destruct H as [H1 H2]; [vm_compute; discriminate | reflexivity |].
  split; [exact H1 | apply H2; discriminate].
Defined.

(** ** Facts about the ranker *)

Section Sorting.

Context {A : Type}.
Implicit Types (x y : nat * A) (l acc : list (nat * A)).

Lemma insert_desc_perm x l : Permutation (insert_desc x l) (x :: l).
Proof.
  induction l as [| y l IH]; simpl; [reflexivity |].
  destruct (Nat.leb (fst x) (fst y)); [| reflexivity].
  rewrite IH. apply perm_swap.
Qed.

Lemma insert_desc_Forall (P : nat * A -> Prop) x l :
  P x -> Forall P l -> Forall P (insert_desc x l).
Proof.
  intros Hx Hl. eapply Permutation_Forall; [symmetry; apply insert_desc_perm |].
  now constructor.
Qed.

Lemma insert_desc_sorted x l :
  StronglySorted desc l -> StronglySorted desc (insert_desc x l).
Proof.
  induction 1 as [| y l Hl IH Hy]; simpl; [repeat constructor |].
  destruct (Nat.leb_spec (fst x) (fst y)) as [Hle | Hlt].
  - constructor; [exact IH |]. now apply insert_desc_Forall.
  - constructor; [now constructor |].
    constructor; [unfold desc; lia |].
    eapply Forall_impl; [exact Hy |]. unfold desc. intros z Hz. lia.
Qed.

Lemma filter_key_below (k : nat) l :
  Forall (fun p => fst p < k) l -> List.filter (has_key k) l = [].
Proof.
  induction 1 as [| y l Hy _ IH]; simpl; [reflexivity |].
  unfold has_key at 1. destruct (Nat.eqb_spec (fst y) k); [lia | exact IH].
Qed.

Lemma insert_desc_filter (k : nat) x l :
  StronglySorted desc l ->
  List.filter (has_key k) (insert_desc x l)
  = (List.filter (has_key k) l ++ List.filter (has_key k) [x])%list.
Proof.
  induction 1 as [| y l Hl IH Hy]; [reflexivity |].
  cbn [insert_desc].
  destruct (Nat.leb_spec (fst x) (fst y)) as [Hle | Hlt].
  - cbn [List.filter]. rewrite IH.
    now destruct (has_key k y).
  - destruct (has_key k x) eqn:Hx.
    + assert (E : List.filter (has_key k) (y :: l) = []).
      { apply Nat.eqb_eq in Hx.
        apply filter_key_below. constructor; [lia |].
        eapply Forall_impl; [exact Hy |]. unfold desc. intros z Hz. lia. }
      cbn [List.filter]. cbn [List.filter] in E. now rewrite E, Hx.
    + cbn [List.filter]. now rewrite Hx, app_nil_r.
Qed.

Lemma fold_insert_desc l acc :
  StronglySorted desc acc ->
  let r := fold_left (fun acc x => insert_desc x acc) l acc in
  StronglySorted desc r /\ Permutation r (acc ++ l)%list /\
  forall k, List.filter (has_key k) r
            = (List.filter (has_key k) acc ++ List.filter (has_key k) l)%list.
Proof.
  revert acc. induction l as [| x l IH]; intros acc Hacc; cbn [fold_left].
  - split; [exact Hacc |]. split; [now rewrite app_nil_r |].
    intros k. now rewrite app_nil_r.
  - destruct (IH (insert_desc x acc) (insert_desc_sorted x acc Hacc))
      as (Hs & Hp & Hf).
    split; [exact Hs |]. split.
    + rewrite Hp, insert_desc_perm. apply Permutation_middle.
    + intros k. rewrite Hf, insert_desc_filter by exact Hacc.
      rewrite <- app_assoc. f_equal. cbn [List.filter].
      now destruct (has_key k x).
Qed.

Lemma sorted_desc_spec l :
  StronglySorted desc (sorted_desc l) /\ Permutation (sorted_desc l) l /\
  forall k, List.filter (has_key k) (sorted_desc l) = List.filter (has_key k) l.
Proof.
  destruct (fold_insert_desc l [] (SSorted_nil _)) as (Hs & Hp & Hf).
  split; [exact Hs |]. split; [exact Hp |]. exact Hf.
Qed.

End Sorting.

Lemma relevance_score_text (kws : list string) (r : gmap string json) :
  text_fields r -> relevance_score kws r = Ok (score kws r).
Proof.
  intros [Ht Hs]. unfold relevance_score, score, text_of.
  destruct (r !! "title") as [t |]; cbn [default].
  - destruct (Ht t eq_refl) as [a ->].
    destruct (r !! "snippet") as [v |]; cbn [default]; [| reflexivity].
    now destruct (Hs v eq_refl) as [b ->].
  - destruct (r !! "snippet") as [v |]; cbn [default]; [| reflexivity].
    now destruct (Hs v eq_refl) as [b ->].
Qed.

Lemma for_each_score (kws : list string) (results : list (gmap string json)) :
  Forall text_fields results ->
  for_each (score_item kws) results
  = Ok (map (fun r => (score kws r, r)) results).
Proof.
  induction 1 as [| r results Hr _ IH]; [reflexivity |].
  cbn [for_each map]. unfold score_item at 1.
  rewrite (relevance_score_text kws r Hr). cbn [obind]. now rewrite IH.
Qed.

Lemma tagged_map (kws : list string) (results : list (gmap string json)) :
  Forall (tagged kws) (map (fun r => (score kws r, r)) results).
Proof. induction results; constructor; [reflexivity | assumption]. Qed.

Lemma map_snd_sorted (kws : list string) (l : list (nat * gmap string json)) :
  Forall (tagged kws) l -> StronglySorted desc l ->
  StronglySorted (fun a b => score kws b <= score kws a) (map snd l).
Proof.
  intros Ht Hs. induction Hs as [| p l Hs IH Hp]; [constructor |].
  apply Forall_cons_1 in Ht as [Hp0 Hl].
  cbn [map]. constructor; [now apply IH |].
  rewrite List.Forall_map. rewrite List.Forall_forall in Hp, Hl |- *.
  intros q Hq. specialize (Hp q Hq). specialize (Hl q Hq).
  unfold tagged, desc in *. lia.
Qed.

Lemma filter_map_snd (kws : list string) (k : nat) (l : list (nat * gmap string json)) :
  Forall (tagged kws) l ->
  List.filter (has_score kws k) (map snd l) = map snd (List.filter (has_key k) l).
Proof.
  induction 1 as [| p l Hp _ IH]; [reflexivity |].
  cbn [map List.filter]. unfold has_score at 1, has_key at 1.
  rewrite <- Hp. destruct (Nat.eqb (fst p) k); cbn [map]; now rewrite IH.
Qed.

Lemma map_snd_tag (kws : list string) (results : list (gmap string json)) :
  map snd (map (fun r => (score kws r, r)) results) = results.
Proof. induction results as [| r l IH]; [reflexivity |]. cbn. now rewrite IH. Qed.

(** C8 (as amended): for results whose title and snippet, where present,
    are strings, and a non-empty keyword list, [format_serp_results]
    displays the results sorted by descending score, results of equal score
    keeping their original relative order (the output is a permutation of
    the input whose restriction to each score value is the input's);
    without a keyword list the results are displayed in their original
    order.  The score of a result counts the keywords whose lower-cased
    form occurs in the lower-cased string made of the title, one space and
    the snippet. *)
Theorem format_serp_results_ranking (py_repr : json -> string)
  (results : list (gmap string json)) :
  ranked results None = Ok results /\
  (forall kws, kws <> [] -> Forall text_fields results ->
     exists out,
       ranked results (Some kws) = Ok out /\
       Permutation results out /\
       StronglySorted (fun a b => score kws b <= score kws a) out /\
       (forall k, List.filter (has_score kws k) out
                  = List.filter (has_score kws k) results)) /\
  (results <> [] -> forall topic out,
     ranked results topic = Ok out ->
     format_serp_results py_repr results topic = Ok (page py_repr out)).
Proof.
  split; [reflexivity |]. split.
  - intros [| kw kws] Hne Htext; [contradiction |].
    exists (map snd (sorted_desc (map (fun r => (score (kw :: kws) r, r)) results))).
    destruct (sorted_desc_spec (map (fun r => (score (kw :: kws) r, r)) results))
      as (Hs & Hp & Hf).
    assert (Ht : Forall (tagged (kw :: kws))
                   (sorted_desc (map (fun r => (score (kw :: kws) r, r)) results))).
    { eapply Permutation_Forall; [symmetry; exact Hp | apply tagged_map]. }
    split; [| split; [| split]].
    + cbn [ranked]. now rewrite (for_each_score _ _ Htext).
    + rewrite <- (map_snd_tag (kw :: kws) results) at 1.
      symmetry. now apply Permutation_map.
    + now apply map_snd_sorted.
    + intros k. rewrite (filter_map_snd _ _ _ Ht), Hf.
      rewrite <- (filter_map_snd _ _ _ (tagged_map _ _)).
      now rewrite map_snd_tag.
  - intros Hne topic out Hr. destruct results as [| r rs]; [contradiction |].
    cbn [format_serp_results]. now rewrite Hr.
Qed.

(** C8 (as stated) fails.  The title "wi" and the snippet "fi" hold the
    keyword "wifi" in their concatenation, but the code scores the string
    "wi fi": the result stays behind one that scores nothing, so the
    output is not in descending order of the stated score.  And on a
    result whose title is the number 7, as the extractor returns it when
    the provider sends one, the ranking raises instead of ordering. *)
Lemma ranking_not_as_stated :
  let A := mk_result (JStr "pool") (JStr "bar") (JStr "") in
  let B := mk_result (JStr "wi") (JStr "fi") (JStr "") in
  score_as_stated ["wifi"] A = 0 /\ score_as_stated ["wifi"] B = 1 /\
  ranked [A; B] (Some ["wifi"]) = Ok [A; B] /\
  extract_results
    (JObj {[ "organic" := JArr [JObj (<["title" := JInt 7]>
                                        {[ "snippet" := JStr "wifi" ]})] ]}) 10
  = Ok [mk_result (JInt 7) (JStr "wifi") (JStr "")] /\
  ranked [mk_result (JInt 7) (JStr "wifi") (JStr "")] (Some ["wifi"])
  = Raise (NotConcatenable (JInt 7)).
Proof. cbv zeta. repeat split; vm_compute; reflexivity. Qed.

Lemma sample_text_fields (t sn : string) :
  text_fields (mk_result (JStr t) (JStr sn) (JStr "")).
Proof.
  split; intros v H; unfold mk_result in H.
  - rewrite lookup_insert_eq in H. injection H as <-. eauto.
  - rewrite lookup_insert_ne, lookup_insert_eq in H by discriminate.
    injection H as <-. eauto.
Qed.

Lemma format_serp_results_ranking_witness :
  let A := mk_result (JStr "Parking") (JStr "free") (JStr "") in
  let B := mk_result (JStr "Wifi review") (JStr "fast") (JStr "") in
  let C := mk_result (JStr "Review") (JStr "good WIFI") (JStr "") in
  let kws := ["wifi"; "review"] in
  ranked [A; B; C] (Some kws) = Ok [B; C; A] /\
  (exists out,
     ranked [A; B; C] (Some kws) = Ok out /\
     Permutation [A; B; C] out /\
     StronglySorted (fun a b => score kws b <= score kws a) out /\
     (forall k, List.filter (has_score kws k) out
                = List.filter (has_score kws k) [A; B; C])) /\
  format_serp_results (fun _ => "") [A; B; C] (Some kws)
  = Ok (page (fun _ => "") [B; C; A]).
Proof.
  cbv zeta.
  assert (E : ranked [mk_result (JStr "Parking") (JStr "free") (JStr "");
                      mk_result (JStr "Wifi review") (JStr "fast") (JStr "");
                      mk_result (JStr "Review") (JStr "good WIFI") (JStr "")]
                (Some ["wifi"; "review"])
              = Ok [mk_result (JStr "Wifi review") (JStr "fast") (JStr "");
                    mk_result (JStr "Review") (JStr "good WIFI") (JStr "");
                    mk_result (JStr "Parking") (JStr "free") (JStr "")]).
  { vm_compute. reflexivity. }
  split; [exact E |]. split.
  - apply (format_serp_results_ranking (fun _ => "")); [discriminate |].
    repeat (constructor; [apply sample_text_fields |]). constructor.
  - apply (format_serp_results_ranking (fun _ => "")); [discriminate | exact E].
Defined.

(** ** Further facts: the cache store *)

(** An entry is served for as long as its age does not exceed the TTL,
    the bound included, and serving it leaves the cache as it is. *)
Theorem cache_set_get_roundtrip (key : string) (v : response) (ts now : Z)
  (c : gmap string (response * Z)) :
  (now - ts <= _CACHE_TTL_SEC)%Z ->
  _cache_get key now (_cache_set key v ts c) = (Some v, _cache_set key v ts c).
Proof.
  intros Hage. apply cache_get_fresh with ts; [| exact Hage].
  unfold _cache_set. apply lookup_insert_eq.
Qed.

Lemma cache_set_get_roundtrip_witness :
  _cache_get "k" 1800 (_cache_set "k" missing_credential 0 ∅)
  = (Some missing_credential, _cache_set "k" missing_credential 0 ∅).
Proof. apply cache_set_get_roundtrip. vm_compute. discriminate. Defined.

(** An entry older than the TTL is not served and is removed; from then on
    the key is absent whatever the clock reads, and no other key is
    affected. *)
Theorem cache_get_expired (key : string) (v : response) (ts now : Z)
  (c : gmap string (response * Z)) :
  c !! key = Some (v, ts) -> (_CACHE_TTL_SEC < now - ts)%Z ->
  _cache_get key now c = (None, delete key c) /\
  (forall now', _cache_get key now' (delete key c) = (None, delete key c)) /\
  (forall k, k <> key -> delete key c !! k = c !! k).
Proof.
  intros Hk Hage. split; [| split].
  - unfold _cache_get. rewrite Hk.
    destruct (Z.ltb_spec _CACHE_TTL_SEC (now - ts)) as [_ | Hle]; [reflexivity | lia].
  - intros now'. apply cache_get_absent, lookup_delete_eq.
  - intros k Hne. now apply lookup_delete_ne.
Qed.

Lemma cache_get_expired_witness :
  _cache_get "k" 1801 (_cache_set "k" missing_credential 0 ∅)
  = (None, delete "k" (_cache_set "k" missing_credential 0 ∅)).
Proof.
  apply (cache_get_expired "k" missing_credential 0 1801).
  - apply lookup_insert_eq.
  - vm_compute. reflexivity.
Defined.

Lemma cache_get_other (key : string) (now : Z) (c : gmap string (response * Z))
  (k : string) :
  k <> key -> snd (_cache_get key now c) !! k = c !! k.
Proof.
  intros Hne. unfold _cache_get. destruct (c !! key) as [[v ts] |]; [| reflexivity].
  destruct (_CACHE_TTL_SEC <? now - ts)%Z; [| reflexivity].
  now apply lookup_delete_ne.
Qed.

(** A lookup touches no key but its own, and repeating it at the same
    clock reading gives the same answer and changes nothing more. *)
Theorem cache_get_idempotent (key : string) (now : Z)
  (c : gmap string (response * Z)) :
  (forall k, k <> key -> snd (_cache_get key now c) !! k = c !! k) /\
  _cache_get key now (snd (_cache_get key now c)) = _cache_get key now c.
Proof.
  unfold _cache_get at 1 3 4. destruct (c !! key) as [[v ts] |] eqn:E.
  - destruct (Z.ltb_spec _CACHE_TTL_SEC (now - ts)) as [Hlt | Hle]; cbn [snd].
    + split; [intros k Hne; now apply lookup_delete_ne |].
      apply cache_get_absent, lookup_delete_eq.
    + split; [reflexivity |]. now apply cache_get_fresh with ts.
  - cbn [snd]. split; [reflexivity |]. now apply cache_get_absent.
Qed.

(** Storing under a key replaces what was stored there, timestamp
    included, and leaves every other key alone; an overwritten entry is
    served by its new timestamp even when the old one had expired. *)
Theorem cache_set_overwrites (key : string) (v1 v2 : response) (t1 t2 now : Z)
  (c : gmap string (response * Z)) :
  _cache_set key v2 t2 (_cache_set key v1 t1 c) = _cache_set key v2 t2 c /\
  (forall k, k <> key -> _cache_set key v2 t2 c !! k = c !! k) /\
  ((now - t2 <= _CACHE_TTL_SEC)%Z ->
   fst (_cache_get key now (_cache_set key v2 t2 (_cache_set key v1 t1 c))) = Some v2).
Proof.
  unfold _cache_set. split; [apply insert_insert_eq | split].
  - intros k Hne. now apply lookup_insert_ne.
  - intros Hage. rewrite insert_insert_eq.
    now rewrite (cache_get_fresh key now _ v2 t2 (lookup_insert_eq _ _ _) Hage).
Qed.

Lemma cache_set_overwrites_witness :
  fst (_cache_get "k" 5000
         (_cache_set "k" (failure "new") 4000
            (_cache_set "k" (failure "old") 0 ∅)))
  = Some (failure "new").
Proof.
  apply (cache_set_overwrites "k" (failure "old") (failure "new") 0 4000 5000 ∅).
  vm_compute. discriminate.
Defined.

(** ** Further facts: the cache key *)

(** Two requests get the same cache key exactly when their queries are
    equal after lower-casing and their result counts are equal. *)
Theorem cache_key_injective (q1 q2 : string) (n1 n2 : Z) :
  cache_key q1 n1 = cache_key q2 n2 <->
  PyStr.lower q1 = PyStr.lower q2 /\ n1 = n2.
Proof.
  unfold cache_key. split.
  - intros E. apply String.app_inj in E.
    apply key_suffix_unique in E as [E1 E2]; try apply pretty_Z_no_colon.
    split; [exact E1 | now apply (inj pretty)].
  - now intros [-> ->].
Qed.

(** ** Further facts: the client *)

Section ClientMore.

Variable json_loads : string -> option json.
Variable describe : exn -> string.

Abbreviation search := (search_google_serp json_loads describe).
Abbreviation parse := (parse_response json_loads).

Lemma search_200 (q : string) (n : Z) (env : call_env) (st : state)
  (resp : http_response) :
  token_missing env = false ->
  cache st !! cache_key q n = None ->
  provider env = HResponse resp -> status_code resp = 200%Z ->
  fst (search q n env st)
  = match parse (format_type env) resp n with
    | Ok rs => {| success := true; results := rs; error := None |}
    | Raise e => failure ("SERP API error: " +:+ describe e)
    end.
Proof.
  intros Htok Hk Hp Hs. unfold search_google_serp.
  rewrite Htok, (cache_get_absent _ _ _ Hk), Hp, Hs. cbn [Z.eqb Pos.eqb].
  destruct (parse_response _ _ _ _) as [[| r rs] | e]; reflexivity.
Qed.

Lemma search_went_out (q : string) (n : Z) (env : call_env) (st : state) :
  net_calls (snd (search q n env st)) = S (net_calls st) ->
  token_missing env = false /\
  exists c, _cache_get (cache_key q n) (clock_get env) (cache st) = (None, c).
Proof.
  intros Hn. destruct (token_missing env) eqn:Htok.
  { rewrite search_no_token in Hn by exact Htok. cbn in Hn. lia. }
  split; [reflexivity |].
  destruct (_cache_get (cache_key q n) (clock_get env) (cache st)) as [[v |] c] eqn:Hget.
  - rewrite (search_hit _ _ _ _ _ _ _ _ Htok Hget) in Hn. cbn in Hn. lia.
  - now exists c.
Qed.

(** Cache hit: when a call went to the provider and returned results, a
    repeated call for the same count and a query with the same lower-cased
    form, made while the stored entry is not older than the TTL, returns
    the same response, issues no HTTP request and leaves the state as it
    is, whatever the provider would answer now. *)
Theorem repeated_call_hits_cache (st : state) (q q' : string) (n : Z)
  (env env' : call_env) :
  net_calls (snd (search q n env st)) = S (net_calls st) ->
  results (fst (search q n env st)) <> [] ->
  PyStr.lower q = PyStr.lower q' ->
  token_missing env' = false ->
  (clock_get env' - clock_set env <= _CACHE_TTL_SEC)%Z ->
  search q' n env' (snd (search q n env st)) = search q n env st.
Proof.
  intros Hout Hres Hcv Htok' Hage.
  destruct (search_went_out _ _ _ _ Hout) as (Htok & c & Hget).
  destruct (search_miss json_loads describe q n env st c Htok Hget)
    as (_ & _ & [[Hnil _] | (_ & _ & _ & Hcache)]); [contradiction |].
  rewrite (surjective_pairing (search q n env st)) at 2.
  apply (search_hit _ _ _ _ _ _ _ (cache (snd (search q n env st))) Htok').
  apply cache_get_fresh with (clock_set env); [| exact Hage].
  rewrite Hcache. unfold cache_key. rewrite <- Hcv.
  apply lookup_insert_eq.
Qed.

(** Expiry: with an entry for the request that is older than the TTL, a
    call with a credential goes to the provider, and afterwards the key
    holds either nothing or the new response with the new timestamp. *)
Theorem stale_entry_refetched (st : state) (q : string) (n : Z) (env : call_env)
  (v : response) (ts : Z) :
  cache st !! cache_key q n = Some (v, ts) ->
  (_CACHE_TTL_SEC < clock_get env - ts)%Z ->
  token_missing env = false ->
  let r := fst (search q n env st) in
  let st' := snd (search q n env st) in
  net_calls st' = S (net_calls st) /\
  (cache st' !! cache_key q n = None \/
   cache st' !! cache_key q n = Some (r, clock_set env)).
Proof.
  intros Hk Hage Htok r st'. subst r st'.
  assert (Hget : _cache_get (cache_key q n) (clock_get env) (cache st)
                 = (None, delete (cache_key q n) (cache st))).
  { unfold _cache_get. rewrite Hk.
    destruct (Z.ltb_spec _CACHE_TTL_SEC (clock_get env - ts)); [reflexivity | lia]. }
  destruct (search_miss json_loads describe q n env st _ Htok Hget)
    as (Hn & _ & [[_ Hcache] | (_ & _ & _ & Hcache)]).
  - split; [exact Hn |]. left. rewrite Hcache. apply lookup_delete_eq.
  - split; [exact Hn |]. right. rewrite Hcache. apply lookup_insert_eq.
Qed.

Lemma search_other_key (st : state) (q : string) (n : Z) (env : call_env)
  (k : string) :
  k <> cache_key q n ->
  cache (snd (search q n env st)) !! k = cache st !! k.
Proof.
  intros Hne. destruct (token_missing env) eqn:Htok.
  { now rewrite search_no_token. }
  destruct (_cache_get (cache_key q n) (clock_get env) (cache st)) as [[v |] c] eqn:Hget.
  { now rewrite (search_hit _ _ _ _ _ _ _ _ Htok Hget). }
  pose proof (cache_get_other (cache_key q n) (clock_get env) (cache st) k Hne) as Hc.
  rewrite Hget in Hc. cbn [snd] in Hc.
  destruct (search_miss json_loads describe q n env st c Htok Hget)
    as (_ & _ & [[_ ->] | (_ & _ & _ & ->)]); [exact Hc |].
  unfold _cache_set. now rewrite lookup_insert_ne.
Qed.

(** A call reads and writes the cache under its own key only. *)
Theorem search_touches_own_key (st : state) (q : string) (n : Z) (env : call_env)
  (k : string) :
  k <> cache_key q n ->
  cache (snd (search q n env st)) !! k = cache st !! k.
Proof. apply search_other_key. Qed.

(** Counts are cached apart: a call for one result count neither answers
    nor suppresses a later call for the same query with another count,
    which goes to the provider when the cache held nothing for it. *)
Theorem counts_cached_separately (st : state) (q : string) (n1 n2 : Z)
  (env1 env2 : call_env) :
  n1 <> n2 ->
  cache st !! cache_key q n2 = None ->
  token_missing env2 = false ->
  net_calls (snd (search q n2 env2 (snd (search q n1 env1 st))))
  = S (net_calls (snd (search q n1 env1 st))).
Proof.
  intros Hn Hk Htok.
  apply (search_miss json_loads describe q n2 env2 _
           (cache (snd (search q n1 env1 st))) Htok).
  apply cache_get_absent. rewrite search_other_key; [exact Hk |].
  intros E. apply Hn. symmetry. exact (cache_key_count_injective q _ _ E).
Qed.

(** A call issues at most one HTTP request, and none without credential:
    a timeout or a failure is not retried. *)
Theorem one_request_per_call (st : state) (q : string) (n : Z) (env : call_env) :
  net_calls st <= net_calls (snd (search q n env st)) <= S (net_calls st) /\
  (token_missing env = true -> net_calls (snd (search q n env st)) = net_calls st).
Proof.
  split; [| intros H; now rewrite search_no_token].
  destruct (token_missing env) eqn:Htok.
  { rewrite search_no_token by exact Htok. cbn. lia. }
  destruct (_cache_get (cache_key q n) (clock_get env) (cache st)) as [[v |] c] eqn:Hget.
  { rewrite (search_hit _ _ _ _ _ _ _ _ Htok Hget). cbn. lia. }
  destruct (search_miss json_loads describe q n env st c Htok Hget) as (-> & _). lia.
Qed.

(** A failed response is never stored: after a call that returns
    [success = false] the cache holds no entry it did not hold before. *)
Theorem failure_not_cached (st : state) (q : string) (n : Z) (env : call_env) :
  success (fst (search q n env st)) = false ->
  forall k e, cache (snd (search q n env st)) !! k = Some e -> cache st !! k = Some e.
Proof.
  intros Hfail. destruct (token_missing env) eqn:Htok.
  { now rewrite search_no_token. }
  destruct (_cache_get (cache_key q n) (clock_get env) (cache st)) as [[v |] c] eqn:Hget.
  { now rewrite (search_hit _ _ _ _ _ _ _ _ Htok Hget). }
  destruct (search_miss json_loads describe q n env st c Htok Hget)
    as (_ & _ & [[_ ->] | (_ & Hs & _)]).
  - apply (cache_get_entries _ _ _ _ _ Hget).
  - congruence.
Qed.

(** No match: a payload in which no strategy's test succeeds gives a
    successful response with no results and no error, which is not
    stored. *)
Theorem unrecognised_payload_succeeds (st : state) (q : string) (n : Z)
  (env : call_env) (body : string) (d : json) :
  token_missing env = false ->
  cache st !! cache_key q n = None ->
  serp_format env = None ->
  provider env = HResponse (ok_response body (Some d)) ->
  unrecognised d ->
  fst (search q n env st) = {| success := true; results := []; error := None |} /\
  cache (snd (search q n env st)) = cache st.
Proof.
  intros Htok Hk Hfmt Hp Hd.
  assert (Hparse : parse (format_type env) (ok_response body (Some d)) n = Ok []).
  { unfold parse_response, decode, format_type. rewrite Hfmt.
    change (String.eqb (PyStr.lower (default "json" None)) "json") with true.
    cbn [json_body ok_response obind].
    destruct d as [| | | | s | l | m]; try contradiction.
    - destruct Hd as (H1 & H2 & H3). unfold extract_results.
      cbn [unwrap contains_key obind]. rewrite H1. cbn [obind].
      rewrite H2. cbn [obind]. now rewrite H3.
    - destruct Hd as (H1 & H2 & H3). unfold extract_results.
      cbn [unwrap contains_key obind]. rewrite H1. cbn [obind].
      rewrite H2. cbn [obind]. now rewrite H3.
    - destruct Hd as (H0 & H1 & H2 & H3). cbn [unwrap]. rewrite H0.
      now rewrite extract_results_dict, H1, H2, H3. }
  split.
  - rewrite (search_200 q n env st _ Htok Hk Hp eq_refl). now rewrite Hparse.
  - pose proof (cache_get_absent _ (clock_get env) _ Hk) as Hget.
    destruct (search_miss json_loads describe q n env st _ Htok Hget)
      as (_ & _ & [[_ Hc] | (Hne & _)]); [exact Hc |].
    rewrite (search_200 q n env st _ Htok Hk Hp eq_refl), Hparse in Hne.
    now elim Hne.
Qed.

(** A payload that is a JSON null, boolean or number makes the first
    membership test raise: the call returns a failure that carries the
    description of that exception. *)
Theorem scalar_payload_fails (st : state) (q : string) (n : Z)
  (env : call_env) (body : string) (d : json) :
  token_missing env = false ->
  cache st !! cache_key q n = None ->
  serp_format env = None ->
  provider env = HResponse (ok_response body (Some d)) ->
  scalar d ->
  fst (search q n env st)
  = failure ("SERP API error: " +:+ describe (NotAContainer d)).
Proof.
  intros Htok Hk Hfmt Hp Hd.
  rewrite (search_200 q n env st _ Htok Hk Hp eq_refl).
  unfold parse_response, decode, format_type. rewrite Hfmt.
  change (String.eqb (PyStr.lower (default "json" None)) "json") with true.
  cbn [json_body ok_response obind].
  destruct d; try contradiction; reflexivity.
Qed.

End ClientMore.

Lemma repeated_call_hits_cache_witness :
  let env := env_with (Some "token")
               (JObj {[ "organic" := JArr [JObj {[ "title" := JStr "Inn" ]}] ]}) in
  let call q := search_google_serp (fun _ => None) (fun _ => "") q 3 env in
  call "wifi" (snd (call "Wifi" initial_state)) = call "Wifi" initial_state.
Proof.
  cbv zeta.
  apply (repeated_call_hits_cache (fun _ => None) (fun _ => "") initial_state
           "Wifi" "wifi" 3).
  - reflexivity.
  - vm_compute. discriminate.
  - reflexivity.
  - reflexivity.
  - vm_compute. discriminate.
Defined.

Lemma stale_entry_refetched_witness :
  let st := {| cache := {[ cache_key "wifi" 3 := (failure "old", (-5000)%Z) ]};
               net_calls := 7 |} in
  let env := env_with (Some "token") (JObj ∅) in
  net_calls (snd (search_google_serp (fun _ => None) (fun _ => "") "wifi" 3 env st)) = 8.
Proof.
  cbv zeta.
  refine (proj1 (stale_entry_refetched (fun _ => None) (fun _ => "")
                   {| cache := {[ cache_key "wifi" 3 := (failure "old", (-5000)%Z) ]};
                      net_calls := 7 |}
                   "wifi" 3 (env_with (Some "token") (JObj ∅))
                   (failure "old") (-5000)%Z _ _ _)).
  - apply lookup_singleton_eq.
  - vm_compute. reflexivity.
  - reflexivity.
Defined.

Lemma search_touches_own_key_witness :
  let st := {| cache := {[ cache_key "pool" 3 := (failure "kept", 0%Z) ]};
               net_calls := 0 |} in
  let env := env_with (Some "token")
               (JObj {[ "organic" := JArr [JObj {[ "title" := JStr "Inn" ]}] ]}) in
  cache (snd (search_google_serp (fun _ => None) (fun _ => "") "wifi" 3 env st))
    !! cache_key "pool" 3
  = Some (failure "kept", 0%Z).
Proof.
  cbv zeta. rewrite search_touches_own_key.
  - apply lookup_singleton_eq.
  - vm_compute. discriminate.
Defined.

Lemma one_request_per_call_witness :
  net_calls (snd (search_google_serp (fun _ => None) (fun _ => "") "wifi" 3
                    (env_with (Some "") (JObj ∅)) initial_state))
  = 0.
Proof.
  apply (proj2 (one_request_per_call (fun _ => None) (fun _ => "") initial_state
                  "wifi" 3 (env_with (Some "") (JObj ∅)))).
  reflexivity.
Defined.

Lemma failure_not_cached_witness :
  cache (snd (search_google_serp (fun _ => None) (fun _ => "") "wifi" 3
                (env_with (Some "token") JNull) initial_state))
    !! cache_key "wifi" 3
  = None.
Proof.
  destruct (cache (snd (search_google_serp (fun _ => None) (fun _ => "") "wifi" 3
                          (env_with (Some "token") JNull) initial_state))
              !! cache_key "wifi" 3) as [e |] eqn:E; [| reflexivity].
  apply (failure_not_cached (fun _ => None) (fun _ => "") initial_state "wifi" 3
           (env_with (Some "token") JNull) eq_refl) in E.
  cbn in E. rewrite lookup_empty in E. discriminate.
Defined.

Lemma unrecognised_payload_succeeds_witness :
  fst (search_google_serp (fun _ => None) (fun _ => "") "wifi" 3
         (env_with (Some "token") (JObj {[ "status" := JStr "ok" ]})) initial_state)
  = {| success := true; results := []; error := None |}.
Proof.
  refine (proj1 (unrecognised_payload_succeeds (fun _ => None) (fun _ => "")
                   initial_state "wifi" 3
                   (env_with (Some "token") (JObj {[ "status" := JStr "ok" ]}))
                   "" (JObj {[ "status" := JStr "ok" ]}) _ _ _ _ _));
    try reflexivity.
  repeat split; reflexivity.
Defined.

Lemma scalar_payload_fails_witness :
  fst (search_google_serp (fun _ => None) (fun _ => "not iterable") "wifi" 3
         (env_with (Some "token") JNull) initial_state)
  = failure "SERP API error: not iterable".
Proof.
  apply (scalar_payload_fails (fun _ => None) (fun _ => "not iterable")
           initial_state "wifi" 3 (env_with (Some "token") JNull) "" JNull);
    first [reflexivity | exact I].
Defined.

(** ** Further facts: decoding and unwrapping *)

Lemma extract_raw_only (text : string) (n : Z) :
  extract_results (JObj {[ "raw" := JStr text ]}) n
  = Ok (raw_items 0 (slice_upto n (find_snippets text))).
Proof.
  rewrite extract_results_dict.
  rewrite !lookup_singleton_ne by discriminate.
  rewrite lookup_singleton_eq. unfold raw_strategy. cbn [subscript].
  now rewrite lookup_singleton_eq.
Qed.

(** With a response format other than ["json"] (compared without regard to
    letter case) the decoded body is not looked at: the results are those
    of the raw-text strategy on the response text, and nothing is raised.
    A format whose lower-cased form is ["json"] is treated as ["json"]. *)
Theorem non_json_format_uses_text (json_loads : string -> option json)
  (fmt : string) (resp : http_response) (n : Z) :
  (PyStr.lower fmt <> "json" ->
   parse_response json_loads fmt resp n
   = Ok (raw_items 0 (slice_upto n (find_snippets (text resp))))) /\
  (PyStr.lower fmt = "json" ->
   parse_response json_loads fmt resp n = parse_response json_loads "json" resp n).
Proof.
  split.
  - intros Hne. unfold parse_response, decode.
    apply String.eqb_neq in Hne. rewrite Hne. cbn [obind unwrap].
    rewrite lookup_singleton_ne by discriminate. apply extract_raw_only.
  - intros Hcv. unfold parse_response, decode.
    now rewrite Hcv.
Qed.

Lemma non_json_format_uses_text_witness :
  parse_response (fun _ => None) "html"
    (ok_response "Nice stay." (Some (JObj {[ "organic" := JArr [] ]}))) 5
  = Ok (raw_items 0 (slice_upto 5 (find_snippets "Nice stay."))).
Proof.
  refine (proj1 (non_json_format_uses_text (fun _ => None) "html" _ 5) _).
  vm_compute. discriminate.
Defined.

(** A ["body"] wrapper replaces the payload, so that the other fields of
    the wrapper are ignored: a dict body is the payload; a string body is
    decoded once more and, when that fails, searched as raw text. *)
Theorem body_wrapper_replaces_payload (json_loads : string -> option json)
  (resp : http_response) (m : gmap string json) (n : Z) :
  json_body resp = Some (JObj m) ->
  (forall b, m !! "body" = Some (JObj b) ->
     parse_response json_loads "json" resp n = extract_results (JObj b) n) /\
  (forall s d, m !! "body" = Some (JStr s) -> json_loads s = Some d ->
     parse_response json_loads "json" resp n = extract_results d n) /\
  (forall s, m !! "body" = Some (JStr s) -> json_loads s = None ->
     parse_response json_loads "json" resp n
     = Ok (raw_items 0 (slice_upto n (find_snippets s)))).
Proof.
  intros Hj. unfold parse_response, decode.
  change (String.eqb (PyStr.lower "json") "json") with true.
  rewrite Hj. cbn [obind unwrap].
  split; [| split].
  - intros b ->. reflexivity.
  - intros s d -> ->. reflexivity.
  - intros s -> ->. apply extract_raw_only.
Qed.

Lemma body_wrapper_replaces_payload_witness :
  parse_response (fun _ => None) "json"
    (ok_response ""
       (Some (JObj (<["body" := JStr "<html>Great hotel!</html>"]>
                      {[ "organic" := JArr [JObj ∅] ]})))) 5
  = Ok (raw_items 0 (slice_upto 5 (find_snippets "<html>Great hotel!</html>"))).
Proof.
  refine (proj2 (proj2 (body_wrapper_replaces_payload (fun _ => None)
                          (ok_response "" _)
                          (<["body" := JStr "<html>Great hotel!</html>"]>
                             {[ "organic" := JArr [JObj ∅] ]})
                          5 eq_refl))
            "<html>Great hotel!</html>" _ eq_refl).
  reflexivity.
Defined.

(** ** Further facts: the extractor *)

Lemma chars_length (s : string) : length (chars s) = String.length s.
Proof. induction s as [| c s IH]; [reflexivity |]. cbn. now rewrite IH. Qed.

Lemma items_slice_length (n : Z) (v sl : json) :
  (0 <= n)%Z -> slice n v = Ok sl -> length (items sl) <= Z.to_nat n.
Proof.
  intros Hn. destruct v; cbn; intros H; try discriminate; injection H as <-; cbn.
  - rewrite chars_length. now apply str_slice_upto_length.
  - now apply slice_upto_length.
Qed.

Lemma raw_items_length (i : nat) (l : list string) :
  length (raw_items i l) <= length l.
Proof.
  revert i. induction l as [| s l IH]; intros i; [cbn; lia |].
  cbn [raw_items]. specialize (IH (S i)).
  destruct (Nat.ltb 30 (String.length s)); cbn [length]; lia.
Qed.

(** Result count: with a non-negative [num_results] no strategy produces
    more than [num_results] results. *)
Theorem result_count_bound (data : json) (n : Z) (rs : list (gmap string json)) :
  (0 <= n)%Z -> extract_results data n = Ok rs -> length rs <= Z.to_nat n.
Proof.
  intros Hn. unfold extract_results.
  destruct (contains_key "organic" data) as [[|] |]; cbn [obind]; [| | discriminate].
  { unfold organic_strategy.
    destruct (subscript "organic" data) as [v |]; cbn [obind]; [| discriminate].
    destruct (slice n v) as [sl |] eqn:Esl; cbn [obind]; [| discriminate].
    intros H. rewrite (for_each_length _ _ _ H).
    now apply (items_slice_length n v). }
  destruct (contains_key "results" data) as [[|] |]; cbn [obind]; [| | discriminate].
  { unfold generic_strategy.
    destruct (subscript "results" data) as [v |]; cbn [obind]; [| discriminate].
    destruct (slice n v) as [sl |] eqn:Esl; cbn [obind]; [| discriminate].
    intros H. rewrite (for_each_length _ _ _ H).
    now apply (items_slice_length n v). }
  destruct (contains_key "raw" data) as [[|] |]; cbn [obind]; [| | discriminate].
  { unfold raw_strategy.
    destruct (subscript "raw" data) as [v |]; cbn [obind]; [| discriminate].
    destruct v; try discriminate. intros H; injection H as <-.
    etransitivity; [apply raw_items_length |]. now apply slice_upto_length. }
  intros H; injection H as <-. cbn. lia.
Qed.

Lemma result_count_bound_witness :
  length [mk_result (JStr "a") (JStr "") (JStr "")] <= Z.to_nat 1.
Proof.
  apply (result_count_bound
           (JObj {[ "organic" := JArr [JObj {[ "title" := JStr "a" ]};
                                       JObj {[ "title" := JStr "b" ]}] ]}) 1).
  - lia.
  - vm_compute. reflexivity.
Defined.

Lemma for_each_Forall2 {A B : Type} (f : A -> outcome B) (l : list A) (bs : list B) :
  for_each f l = Ok bs -> Forall2 (fun a b => f a = Ok b) l bs.
Proof.
  revert bs. induction l as [| a l IH]; cbn; intros bs H.
  - injection H as <-. constructor.
  - destruct (f a) as [b |] eqn:Ea; cbn in H; [| discriminate].
    destruct (for_each f l) as [bs' |]; cbn in H; [| discriminate].
    injection H as <-. constructor; auto.
Qed.

Lemma for_each_total {A B : Type} (f : A -> outcome B) (l : list A) :
  Forall (fun a => exists b, f a = Ok b) l -> exists bs, for_each f l = Ok bs.
Proof.
  induction 1 as [| a l [b Hb] _ [bs IH]]; cbn; [eauto |].
  rewrite Hb, IH. cbn. eauto.
Qed.

Lemma for_each_raises {A B : Type} (f : A -> outcome B) (l : list A) :
  Exists (fun a => exists e, f a = Raise e) l -> exists e, for_each f l = Raise e.
Proof.
  induction l as [| a l IH]; intros H; [inversion H |].
  cbn. destruct (f a) as [b |] eqn:Ea; cbn; [| eauto].
  apply Exists_cons in H as [[e He] | H]; [congruence |].
  destruct (IH H) as [e ->]. cbn. eauto.
Qed.

Lemma organic_item_ok (item : json) :
  item_ok item -> exists r, organic_item item = Ok r.
Proof.
  destruct item as [| | | | | | im]; cbn; try contradiction.
  intros Hs. unfold organic_item. cbn [dict_get obind].
  destruct (sliceable_slice 300 _ Hs) as [sl ->]. cbn. eauto.
Qed.

(** Organic strategy, exact count: when the first [num_results] items of
    the organic list are dicts with a sliceable snippet source, the call
    succeeds with [min num_results (len organic)] results, the i-th built
    from the i-th item; the items beyond the slice are not looked at. *)
Theorem organic_results_in_order (m : gmap string json) (l : list json) (n : Z) :
  m !! "organic" = Some (JArr l) -> (0 <= n)%Z ->
  Forall item_ok (take (Z.to_nat n) l) ->
  exists rs,
    extract_results (JObj m) n = Ok rs /\
    length rs = Nat.min (Z.to_nat n) (length l) /\
    Forall2 (fun item r => organic_item item = Ok r) (take (Z.to_nat n) l) rs.
Proof.
  intros Hm Hn Hok.
  assert (E : extract_results (JObj m) n
              = for_each organic_item (take (Z.to_nat n) l)).
  { rewrite extract_results_dict, Hm. unfold organic_strategy.
    cbn [subscript]. rewrite Hm. cbn [obind slice items].
    unfold slice_upto. destruct (Z.leb_spec 0 n); [reflexivity | lia]. }
  destruct (for_each_total organic_item (take (Z.to_nat n) l)) as [rs Hrs].
  { eapply Forall_impl; [exact Hok |]. apply organic_item_ok. }
  exists rs. rewrite E. split; [exact Hrs | split].
  - rewrite (for_each_length _ _ _ Hrs). apply length_take.
  - now apply for_each_Forall2.
Qed.

Lemma organic_results_in_order_witness :
  exists rs,
    extract_results
      (JObj {[ "organic" := JArr [JObj {[ "title" := JStr "a" ]};
                                  JObj {[ "title" := JStr "b" ]};
                                  JNull] ]}) 2
    = Ok rs /\ length rs = 2.
Proof.
  destruct (organic_results_in_order
              {[ "organic" := JArr [JObj {[ "title" := JStr "a" ]};
                                    JObj {[ "title" := JStr "b" ]};
                                    JNull] ]}
              [JObj {[ "title" := JStr "a" ]}; JObj {[ "title" := JStr "b" ]}; JNull]
              2 (lookup_singleton_eq _ _)) as (rs & H1 & H2 & _).
  - lia.
  - repeat constructor.
  - exists rs. split; [exact H1 | exact H2].
Defined.

(** One malformed item spoils the call: when some item within the slice of
    the organic list is not a dict, the extraction raises and no result is
    returned, however many well-formed items come before it. *)
Theorem malformed_item_raises (m : gmap string json) (l : list json) (n : Z) :
  m !! "organic" = Some (JArr l) ->
  Exists not_dict (slice_upto n l) ->
  exists e, extract_results (JObj m) n = Raise e.
Proof.
  intros Hm Hbad.
  rewrite extract_results_dict, Hm. unfold organic_strategy.
  cbn [subscript]. rewrite Hm. cbn [obind slice items].
  apply for_each_raises.
  eapply Exists_impl; [exact Hbad |].
  intros item Hitem. destruct item; try contradiction; cbn; eauto.
Qed.

Lemma malformed_item_raises_witness :
  exists e,
    extract_results
      (JObj {[ "organic" := JArr [JObj {[ "title" := JStr "a" ]}; JStr "b"] ]}) 5
    = Raise e.
Proof.
  apply (malformed_item_raises _ [JObj {[ "title" := JStr "a" ]}; JStr "b"] 5).
  - reflexivity.
  - apply Exists_cons_tl, Exists_cons_hd. exact I.
Defined.

Lemma mk_result_dom (t s l : json) : dom (mk_result t s l) = result_keys.
Proof.
  unfold mk_result, result_keys. rewrite !dom_insert_L, dom_empty_L. set_solver.
Qed.

Lemma organic_item_keys (item : json) (r : gmap string json) :
  organic_item item = Ok r -> dom r = result_keys.
Proof.
  unfold organic_item. destruct item; cbn; try discriminate.
  destruct (slice 300 _); cbn; [| discriminate].
  intros H; injection H as <-. apply mk_result_dom.
Qed.

Lemma generic_item_keys (item : json) (r : gmap string json) :
  generic_item item = Ok r -> dom r = result_keys.
Proof.
  unfold generic_item. destruct item; cbn; try discriminate.
  destruct (slice 300 _); cbn; [| discriminate].
  intros H; injection H as <-. apply mk_result_dom.
Qed.

Lemma raw_items_keys (i : nat) (l : list string) :
  Forall (fun r => dom r = result_keys) (raw_items i l).
Proof.
  revert i. induction l as [| s l IH]; intros i; [constructor |].
  cbn [raw_items]. destruct (Nat.ltb 30 (String.length s)); [| apply IH].
  constructor; [apply mk_result_dom | apply IH].
Qed.

(** Result schema: every extracted result is a dict with exactly the keys
    ["title"], ["snippet"] and ["link"], whatever the provider's items
    hold. *)
Theorem result_schema (data : json) (n : Z) (rs : list (gmap string json)) :
  extract_results data n = Ok rs -> Forall (fun r => dom r = result_keys) rs.
Proof.
  unfold extract_results.
  destruct (contains_key "organic" data) as [[|] |]; cbn [obind]; [| | discriminate].
  { unfold organic_strategy.
    destruct (subscript "organic" data) as [v |]; cbn [obind]; [| discriminate].
    destruct (slice n v) as [sl |]; cbn [obind]; [| discriminate].
    apply for_each_Forall, organic_item_keys. }
  destruct (contains_key "results" data) as [[|] |]; cbn [obind]; [| | discriminate].
  { unfold generic_strategy.
    destruct (subscript "results" data) as [v |]; cbn [obind]; [| discriminate].
    destruct (slice n v) as [sl |]; cbn [obind]; [| discriminate].
    apply for_each_Forall, generic_item_keys. }
  destruct (contains_key "raw" data) as [[|] |]; cbn [obind]; [| | discriminate].
  { unfold raw_strategy.
    destruct (subscript "raw" data) as [v |]; cbn [obind]; [| discriminate].
    destruct v; try discriminate. intros H; injection H as <-.
    apply raw_items_keys. }
  intros H; injection H as <-. constructor.
Qed.

Lemma result_schema_witness :
  Forall (fun r => dom r = result_keys)
    [mk_result (JInt 7) (JStr "") (JStr "http://inn")].
Proof.
  apply (result_schema
           (JObj {[ "results" :=
                      JArr [JObj (<["title" := JInt 7]>
                                    (<["url" := JStr "http://inn"]>
                                       {[ "extra" := JNull ]}))] ]}) 3).
  vm_compute. reflexivity.
Defined.

Lemma mk_result_title (t s l : json) : mk_result t s l !! "title" = Some t.
Proof. unfold mk_result. apply lookup_insert_eq. Qed.




(** ** Further facts: the matcher *)

Lemma match_here_one (ic : bool) (cs : Regex.charset) (p : list Regex.atom)
  (s : string) (k : nat) :
  Regex.match_here ic (Regex.One cs :: p) s = Some k ->
  exists c s' k', s = String c s' /\ Regex.cs_match ic cs c = true /\
                  Regex.match_here ic p s' = Some k' /\ k = S k'.
Proof.
  destruct s as [| c s']; cbn [Regex.match_here]; [discriminate |].
  destruct (Regex.cs_match ic cs c) eqn:Ec; [| discriminate].
  destruct (Regex.match_here ic p s') as [k' |] eqn:Em; cbn; [| discriminate].
  intros H; injection H as <-. exists c, s', k'. repeat split; assumption.
Qed.

Lemma match_here_star (ic : bool) (cs : Regex.charset) (p : list Regex.atom)
  (s : string) (k : nat) :
  Regex.match_here ic (Regex.Star cs :: p) s = Some k ->
  exists pre rest k',
    s = pre +:+ rest /\ str_forall (Regex.cs_match ic cs) pre = true /\
    Regex.match_here ic p rest = Some k' /\ k = String.length pre + k'.
Proof.
  revert k. induction s as [| c s' IH]; intros k.
  - change (Regex.match_here ic (Regex.Star cs :: p) EmptyString)
      with (Regex.match_here ic p EmptyString).
    intros H. exists EmptyString, EmptyString, k. auto.
  - change (Regex.match_here ic (Regex.Star cs :: p) (String c s'))
      with (if Regex.cs_match ic cs c
            then match Regex.match_here ic (Regex.Star cs :: p) s' with
                 | Some k => Some (S k)
                 | None => Regex.match_here ic p (String c s')
                 end
            else Regex.match_here ic p (String c s')).
    destruct (Regex.cs_match ic cs c) eqn:Ec.
    + destruct (Regex.match_here ic (Regex.Star cs :: p) s') as [k0 |] eqn:E0.
      * intros H; injection H as <-.
        destruct (IH k0 eq_refl) as (pre & rest & k' & -> & Hpre & Hrest & ->).
        exists (String c pre), rest, k'. cbn. rewrite Ec, Hpre. auto.
      * intros H. exists EmptyString, (String c s'), k. auto.
    + intros H. exists EmptyString, (String c s'), k. auto.
Qed.

Lemma match_here_alt (ic : bool) (ws : list string) (p : list Regex.atom)
  (s : string) (k : nat) :
  Regex.match_here ic (Regex.Alt ws :: p) s = Some k ->
  exists w rest k', In w ws /\ Regex.eat ic w s = Some rest /\
                    Regex.match_here ic p rest = Some k' /\
                    k = String.length w + k'.
Proof.
  induction ws as [| w ws IH].
  - discriminate.
  - change (Regex.match_here ic (Regex.Alt (w :: ws) :: p) s)
      with (match Regex.eat ic w s with
            | Some rest =>
                match Regex.match_here ic p rest with
                | Some k => Some (String.length w + k)
                | None => Regex.match_here ic (Regex.Alt ws :: p) s
                end
            | None => Regex.match_here ic (Regex.Alt ws :: p) s
            end).
    assert (Hnext : Regex.match_here ic (Regex.Alt ws :: p) s = Some k ->
                    exists w0 rest k', In w0 (w :: ws) /\
                      Regex.eat ic w0 s = Some rest /\
                      Regex.match_here ic p rest = Some k' /\
                      k = String.length w0 + k').
    { intros H. destruct (IH H) as (w0 & rest & k' & Hin & He & Hm & ->).
      exists w0, rest, k'. cbn. auto. }
    destruct (Regex.eat ic w s) as [rest |] eqn:Ee; [| exact Hnext].
    destruct (Regex.match_here ic p rest) as [k' |] eqn:Em; [| exact Hnext].
    intros H; injection H as <-. exists w, rest, k'. cbn. auto.
Qed.

Lemma eat_ignorecase (w s rest : string) :
  Regex.eat true w s = Some rest ->
  exists pre, s = pre +:+ rest /\ String.length pre = String.length w /\
              PyStr.lower pre = PyStr.lower w.
Proof.
  revert s. induction w as [| a w IH]; intros s; cbn [Regex.eat].
  - intros H; injection H as ->. now exists EmptyString.
  - destruct s as [| b s']; [discriminate |].
    unfold Regex.char_eq.
    destruct (Ascii.eqb_spec (PyStr.lower_char a) (PyStr.lower_char b)) as [Hab |];
      [| discriminate].
    intros H. destruct (IH s' H) as (pre & -> & Hlen & Hlow).
    exists (String b pre). cbn. now rewrite Hlen, Hlow, Hab.
Qed.

Ltac push_app :=
  repeat match goal with
         | |- context [String ?c ?a +:+ ?b] =>
             change (String c a +:+ b) with (String c (a +:+ b))
         | |- context [EmptyString +:+ ?b] =>
             change (EmptyString +:+ b) with b
         end.

Lemma str_take_app (a b : string) : PyStr.take (String.length a) (a +:+ b) = a.
Proof.
  induction a as [| c a IH]; push_app; [now destruct b |].
  cbn [String.length PyStr.take]. now rewrite IH.
Qed.

Lemma str_take_drop (k : nat) (s : string) :
  s = PyStr.take k s +:+ str_drop k s.
Proof.
  revert s. induction k as [| k IH]; intros [| c s]; try reflexivity.
  cbn [PyStr.take str_drop]. push_app. now rewrite <- IH.
Qed.

Lemma str_length_app (a b : string) :
  String.length (a +:+ b) = String.length a + String.length b.
Proof.
  induction a as [| c a IH]; push_app; [reflexivity |].
  cbn [String.length]. now rewrite IH.
Qed.

Lemma str_app_assoc (a b c : string) : (a +:+ b) +:+ c = a +:+ (b +:+ c).
Proof. induction a as [| x a IH]; push_app; [reflexivity |]. now rewrite IH. Qed.

Lemma str_forall_app (f : ascii -> bool) (a b : string) :
  str_forall f (a +:+ b) = str_forall f a && str_forall f b.
Proof.
  induction a as [| c a IH]; push_app; [reflexivity |].
  cbn [str_forall]. now rewrite IH, andb_assoc.
Qed.

Lemma lower_app (a b : string) :
  PyStr.lower (a +:+ b) = PyStr.lower a +:+ PyStr.lower b.
Proof.
  induction a as [| c a IH]; push_app; [reflexivity |].
  cbn [PyStr.lower]. push_app. now rewrite IH.
Qed.

Lemma prefix_app (a b : string) : String.prefix a (a +:+ b) = true.
Proof.
  induction a as [| c a IH]; push_app; [now destruct b |].
  cbn [String.prefix]. destruct (ascii_dec c c); [exact IH | contradiction].
Qed.

Lemma contains_here (a b : string) : PyStr.contains a (a +:+ b) = true.
Proof.
  pose proof (prefix_app a b) as H.
  destruct (a +:+ b); cbn [PyStr.contains]; now rewrite H.
Qed.

Lemma contains_app_r (w a b : string) :
  PyStr.contains w b = true -> PyStr.contains w (a +:+ b) = true.
Proof.
  intros H. induction a as [| c a IH]; push_app; [exact H |].
  cbn [PyStr.contains]. rewrite IH. apply orb_true_r.
Qed.

Lemma first_class (c : ascii) :
  Regex.cs_match true
    {| Regex.negated := false; Regex.ranges := [("A"%char, "Z"%char)] |} c
  = true ->
  is_sentence_end c = false.
Proof.
  destruct c as [[] [] [] [] [] [] [] []]; vm_compute; intros H;
    first [reflexivity | discriminate].
Qed.

Lemma inner_class (c : ascii) :
  Regex.cs_match true {| Regex.negated := true; Regex.ranges := sentence_end |} c
  = negb (is_sentence_end c).
Proof. destruct c as [[] [] [] [] [] [] [] []]; reflexivity. Qed.

Lemma end_class (c : ascii) :
  Regex.cs_match true {| Regex.negated := false; Regex.ranges := sentence_end |} c
  = is_sentence_end c.
Proof. destruct c as [[] [] [] [] [] [] [] []]; reflexivity. Qed.

Lemma lower_char_sentence_end (c : ascii) :
  is_sentence_end (PyStr.lower_char c) = is_sentence_end c.
Proof. destruct c as [[] [] [] [] [] [] [] []]; reflexivity. Qed.

Lemma str_forall_ext (f g : ascii -> bool) (s : string) :
  (forall c, f c = g c) -> str_forall f s = str_forall g s.
Proof.
  intros H. induction s as [| c s IH]; [reflexivity |].
  cbn. now rewrite H, IH.
Qed.

Lemma str_forall_lower (s : string) :
  str_forall (fun a => negb (is_sentence_end a)) (PyStr.lower s)
  = str_forall (fun a => negb (is_sentence_end a)) s.
Proof.
  induction s as [| c s IH]; [reflexivity |].
  cbn. now rewrite lower_char_sentence_end, IH.
Qed.

Lemma keywords_plain (kw : string) :
  In kw keywords ->
  PyStr.lower kw = kw /\
  str_forall (fun a => negb (is_sentence_end a)) kw = true /\
  4 <= String.length kw.
Proof.
  unfold keywords. cbn [In].
  intros H;
    repeat (destruct H as [<- | H];
            [split; [reflexivity | split; [reflexivity | cbn; lia]] |]).
  contradiction.
Qed.

Lemma snippet_match (s : string) (k : nat) :
  Regex.match_here true snippet_pattern s = Some k ->
  snippet_like (PyStr.take k s).
Proof.
  unfold snippet_pattern. intros H.
  apply match_here_one in H as (c & s1 & k1 & -> & Hc & H & ->).
  apply match_here_star in H as (pre1 & r1 & k2 & -> & Hpre1 & H & ->).
  apply match_here_alt in H as (kw & r2 & k3 & Hkw & Heat & H & ->).
  apply match_here_star in H as (pre2 & r3 & k4 & -> & Hpre2 & H & ->).
  apply match_here_one in H as (e & r4 & k5 & -> & He & H & ->).
  cbn [Regex.match_here] in H. injection H as <-.
  apply eat_ignorecase in Heat as (kwt & -> & Hlen & Hlow).
  destruct (keywords_plain kw Hkw) as (Hkwl & Hkwp & Hkw4).
  rewrite Hkwl in Hlow.
  apply first_class in Hc. rewrite end_class in He.
  rewrite (str_forall_ext _ _ pre1 inner_class) in Hpre1.
  rewrite (str_forall_ext _ _ pre2 inner_class) in Hpre2.
  exists (String c (pre1 +:+ kwt +:+ pre2)), e.
  split; [| split; [| split; [| exact He]]].
  - cbn [PyStr.take]. push_app. f_equal.
    replace (pre1 +:+ (kwt +:+ pre2 +:+ String e r4))
      with ((pre1 +:+ kwt +:+ pre2 +:+ String e EmptyString) +:+ r4).
    + replace (String.length pre1 + (String.length kw + (String.length pre2 + 1)))
        with (String.length (pre1 +:+ kwt +:+ pre2 +:+ String e EmptyString)).
      * now rewrite str_take_app, !str_app_assoc.
      * rewrite !str_length_app, Hlen. cbn [String.length]. lia.
    + now rewrite !str_app_assoc.
  - cbn [String.length]. rewrite !str_length_app, Hlen. lia.
  - cbn [str_forall]. rewrite Hc. cbn [negb andb].
    rewrite !str_forall_app, Hpre1, Hpre2.
    rewrite <- str_forall_lower, Hlow, Hkwp. reflexivity.
Qed.

Lemma scan_Forall (P : string -> Prop) (ic : bool) (p : list Regex.atom) :
  (forall s k, Regex.match_here ic p s = Some k -> P (PyStr.take k s)) ->
  forall s skip, Forall P (Regex.scan ic p skip s).
Proof.
  intros HP. induction s as [| c s IH]; intros skip; cbn [Regex.scan].
  - destruct skip; [| constructor].
    destruct (Regex.match_here ic p EmptyString) as [k |] eqn:E; [| constructor].
    constructor; [| constructor].
    specialize (HP _ _ E). now destruct k.
  - destruct skip as [| skip]; [| apply IH].
    destruct (Regex.match_here ic p (String c s)) as [[| k] |] eqn:E.
    + constructor; [| apply IH]. exact (HP _ _ E).
    + constructor; [| apply IH]. exact (HP _ _ E).
    + apply IH.
Qed.

(** Shape of the raw-text matches: every string the pattern finds has at
    least six characters, ends with one of [.], [!], [?], and has none of
    these three before its last character. *)
Theorem snippets_are_sentences (raw : string) :
  Forall snippet_like (find_snippets raw).
Proof.
  unfold find_snippets, Regex.findall.
  apply scan_Forall. apply snippet_match.
Qed.

(** Order of the raw-text matches: the strings [re.findall] returns occur
    in the text one after the other, from left to right and without
    overlap. *)
Theorem snippets_in_order (raw : string) :
  occur_in_order (find_snippets raw) raw.
Proof.
  unfold find_snippets, Regex.findall.
  assert (H : forall s skip,
             occur_in_order (Regex.scan true snippet_pattern skip s)
               (str_drop skip s)).
  { induction s as [| c s IH]; intros skip; cbn [Regex.scan].
    - assert (E : str_drop skip EmptyString = EmptyString) by now destruct skip.
      rewrite E. destruct skip; [| constructor].
      destruct (Regex.match_here true snippet_pattern EmptyString);
        [| constructor].
      apply (occur_here EmptyString [] EmptyString). constructor.
    - destruct skip as [| skip]; [| apply IH].
      cbn [str_drop].
      destruct (Regex.match_here true snippet_pattern (String c s))
        as [[| k] |] eqn:E.
      + apply (occur_here EmptyString _ (String c s)).
        apply occur_skip. apply (IH 0).
      + rewrite (str_take_drop (S k) (String c s)) at 2.
        apply occur_here. apply (IH k).
      + apply occur_skip. apply (IH 0). }
  apply (H raw 0).
Qed.

(** ** Further facts: the ranker *)

Lemma insert_desc_last {A : Type} (x : nat * A) (acc : list (nat * A)) :
  Forall (fun y => desc y x) acc -> insert_desc x acc = (acc ++ [x])%list.
Proof.
  induction 1 as [| y acc Hy _ IH]; [reflexivity |].
  cbn [insert_desc]. unfold desc in Hy.
  destruct (Nat.leb_spec (fst x) (fst y)); [| lia].
  now rewrite IH.
Qed.

Lemma sorted_app_before {A : Type} (R : A -> A -> Prop) (acc l : list A) (x : A) :
  StronglySorted R (acc ++ x :: l)%list -> Forall (fun y => R y x) acc.
Proof.
  induction acc as [| y acc IH]; intros Hs; [constructor |].
  apply StronglySorted_inv in Hs as [Hs Hy].
  constructor; [| now apply IH].
  rewrite List.Forall_forall in Hy. apply Hy, in_elt.
Qed.

Lemma fold_insert_sorted {A : Type} (l acc : list (nat * A)) :
  StronglySorted desc (acc ++ l)%list ->
  fold_left (fun acc x => insert_desc x acc) l acc = (acc ++ l)%list.
Proof.
  revert acc. induction l as [| x l IH]; intros acc Hs; cbn [fold_left].
  - now rewrite app_nil_r.
  - rewrite insert_desc_last.
    + rewrite IH; rewrite <- app_assoc; [reflexivity | exact Hs].
    + exact (sorted_app_before desc acc l x Hs).
Qed.

Lemma sorted_desc_fixed {A : Type} (l : list (nat * A)) :
  StronglySorted desc l -> sorted_desc l = l.
Proof. intros Hs. unfold sorted_desc. now rewrite fold_insert_sorted. Qed.

Lemma for_each_map_snd {A B : Type} (f : B -> outcome (A * B)) (l : list (A * B)) :
  Forall (fun p => f (snd p) = Ok p) l -> for_each f (map snd l) = Ok l.
Proof.
  induction 1 as [| p l Hp _ IH]; [reflexivity |].
  cbn [map for_each]. rewrite Hp. cbn [obind]. now rewrite IH.
Qed.

Lemma Forall2_scored {A B : Type} (f : B -> outcome (A * B)) (l : list B)
  (ps : list (A * B)) :
  Forall2 (fun b p => f b = Ok p) l ps ->
  (forall b p, f b = Ok p -> snd p = b) ->
  Forall (fun p => f (snd p) = Ok p) ps.
Proof.
  intros H Hsnd. induction H as [| b p l ps Hbp _ IH]; constructor; [| exact IH].
  now rewrite (Hsnd b p Hbp).
Qed.

Lemma score_item_snd (kws : list string) (r : gmap string json)
  (p : nat * gmap string json) :
  score_item kws r = Ok p -> snd p = r.
Proof.
  unfold score_item. destruct (relevance_score kws r); cbn; [| discriminate].
  now intros H; injection H as <-.
Qed.

(** Ranking is idempotent: ranking an already ranked list, with the same
    keywords, returns it unchanged. *)
Theorem ranking_idempotent (results out : list (gmap string json))
  (topic : option (list string)) :
  ranked results topic = Ok out -> ranked out topic = Ok out.
Proof.
  destruct topic as [[| kw kws] |]; cbn [ranked];
    try (intros H; injection H as <-; reflexivity).
  destruct (for_each (score_item (kw :: kws)) results) as [scored |] eqn:E;
    cbn [obind]; [| discriminate].
  intros H; injection H as <-.
  destruct (sorted_desc_spec scored) as (Hs & Hp & _).
  assert (Hok : Forall (fun p => score_item (kw :: kws) (snd p) = Ok p)
                  (sorted_desc scored)).
  { eapply Permutation_Forall; [symmetry; exact Hp |].
    eapply Forall2_scored; [apply for_each_Forall2, E |].
    apply score_item_snd. }
  rewrite (for_each_map_snd _ _ Hok). cbn [obind].
  now rewrite (sorted_desc_fixed _ Hs).
Qed.

Lemma ranking_idempotent_witness :
  let A := mk_result (JStr "Parking") (JStr "free") (JStr "") in
  let B := mk_result (JStr "Wifi review") (JStr "fast") (JStr "") in
  ranked [B; A] (Some ["wifi"]) = Ok [B; A].
Proof.
  cbv zeta.
  apply (ranking_idempotent
           [mk_result (JStr "Parking") (JStr "free") (JStr "");
            mk_result (JStr "Wifi review") (JStr "fast") (JStr "")]).
  vm_compute. reflexivity.
Defined.

Lemma count_keywords_bound (kws : list string) (text : string) :
  count_keywords kws text <= length kws.
Proof.
  induction kws as [| kw kws IH]; cbn [count_keywords length]; [lia |].
  destruct (PyStr.contains (PyStr.lower kw) text); lia.
Qed.

(** A relevance score never exceeds the number of keywords, each keyword
    counting at most once however often it occurs in the text. *)
Theorem relevance_score_bound (kws : list string) (r : gmap string json) (k : nat) :
  relevance_score kws r = Ok k -> k <= length kws.
Proof.
  unfold relevance_score.
  destruct (default (JStr "") (r !! "title")); try discriminate.
  destruct (default (JStr "") (r !! "snippet")); try discriminate.
  intros H; injection H as <-. apply count_keywords_bound.
Qed.

Lemma relevance_score_bound_witness : 1 <= length ["wifi"; "pool"].
Proof.
  apply (relevance_score_bound ["wifi"; "pool"]
           (mk_result (JStr "wifi wifi wifi") (JStr "WIFI") (JStr ""))).
  vm_compute. reflexivity.
Defined.

Lemma count_keywords_lower (kws kws' : list string) (text : string) :
  map PyStr.lower kws = map PyStr.lower kws' ->
  count_keywords kws text = count_keywords kws' text.
Proof.
  revert kws'. induction kws as [| kw kws IH]; intros [| kw' kws'] E;
    try discriminate; [reflexivity |].
  cbn [map] in E. injection E as Ekw E.
  cbn [count_keywords]. now rewrite Ekw, (IH kws' E).
Qed.

(** Scoring sees lower-cased text only: two keyword lists with the same
    lower-cased keywords, and two results whose title, space and snippet
    have the same lower-cased form, get the same score. *)
Theorem relevance_score_case_insensitive (kws kws' : list string)
  (r r' : gmap string json) (t t' sn sn' : string) :
  map PyStr.lower kws = map PyStr.lower kws' ->
  r !! "title" = Some (JStr t) -> r' !! "title" = Some (JStr t') ->
  r !! "snippet" = Some (JStr sn) -> r' !! "snippet" = Some (JStr sn') ->
  PyStr.lower (t +:+ " " +:+ sn) = PyStr.lower (t' +:+ " " +:+ sn') ->
  relevance_score kws r = relevance_score kws' r'.
Proof.
  intros Hk Ht Ht' Hs Hs' Htext. unfold relevance_score.
  rewrite Ht, Ht', Hs, Hs'. cbn [default]. f_equal.
  rewrite Htext. now apply count_keywords_lower.
Qed.

Lemma relevance_score_case_insensitive_witness :
  relevance_score ["WiFi"] (mk_result (JStr "Free WIFI") (JStr "Pool") (JStr ""))
  = relevance_score ["wifi"] (mk_result (JStr "free wifi") (JStr "pool") (JStr "x")).
Proof.
  apply (relevance_score_case_insensitive ["WiFi"] ["wifi"] _ _
           "Free WIFI" "free wifi" "Pool" "pool").
  - reflexivity.
  - apply mk_result_title.
  - apply mk_result_title.
  - apply mk_result_snippet.
  - apply mk_result_snippet.
  - reflexivity.
Defined.

Lemma bad_text_raises (kws : list string) (r : gmap string json) :
  bad_text r -> exists e, score_item kws r = Raise e.
Proof.
  unfold bad_text, score_item, relevance_score.
  destruct (default (JStr "") (r !! "title")); cbn; eauto;
    destruct (default (JStr "") (r !! "snippet")); cbn; eauto; contradiction.
Qed.

(** Ranking needs text: when some result has a title or a snippet that is
    not a string (the extractor copies whatever the provider sent), the
    formatter raises as soon as a non-empty keyword list is given, whereas
    it formats the same list without keywords. *)
Theorem ranking_raises_on_non_text (py_repr : json -> string)
  (results : list (gmap string json)) (kw : string) (kws : list string) :
  Exists bad_text results ->
  (exists e, format_serp_results py_repr results (Some (kw :: kws)) = Raise e) /\
  format_serp_results py_repr results None = Ok (page py_repr results).
Proof.
  intros Hbad.
  destruct results as [| r rs]; [inversion Hbad |].
  split; [| reflexivity].
  cbn [format_serp_results ranked].
  destruct (for_each_raises (score_item (kw :: kws)) (r :: rs)) as [e He].
  { eapply Exists_impl; [exact Hbad |]. apply bad_text_raises. }
  rewrite He. cbn. eauto.
Qed.

Lemma ranking_raises_on_non_text_witness :
  exists e,
    format_serp_results (fun _ => "None")
      [mk_result JNull (JStr "clean rooms") (JStr "")] (Some ["clean"])
    = Raise e.
Proof.
  apply (ranking_raises_on_non_text (fun _ => "None")
           [mk_result JNull (JStr "clean rooms") (JStr "")] "clean" []).
  apply Exists_cons_hd. vm_compute. exact I.
Defined.

Lemma counts_cached_separately_witness :
  let env := env_with (Some "token")
               (JObj {[ "organic" := JArr [JObj {[ "title" := JStr "Inn" ]}] ]}) in
  let call n := search_google_serp (fun _ => None) (fun _ => "") "wifi" n env in
  net_calls (snd (call 5%Z (snd (call 3%Z initial_state))))
  = S (net_calls (snd (call 3%Z initial_state))).
Proof.
  cbv zeta.
  apply (counts_cached_separately (fun _ => None) (fun _ => "") initial_state
           "wifi" 3 5).
  - discriminate.
  - reflexivity.
  - reflexivity.
Defined.

Lemma cache_get_idempotent_witness :
  snd (_cache_get "a" 5000 (_cache_set "b" (failure "kept") 0
                              (_cache_set "a" (failure "old") 0 ∅))) !! "b"
  = Some (failure "kept", 0%Z).
Proof.
  rewrite (proj1 (cache_get_idempotent "a" 5000 _) "b") by discriminate.
  apply lookup_insert_eq.
Defined.

Lemma cache_key_injective_witness :
  PyStr.lower "Spa" = PyStr.lower "SPA" /\ 3%Z = 3%Z.
Proof.
  apply (proj1 (cache_key_injective "Spa" "SPA" 3 3)). reflexivity.
Defined.
